(** * Session layer of the text-adventure server: a shallow embedding

    The development follows [testing_submission/mcp_server.py].  The class
    [GameState] wraps a game engine ([TextAdventureEnv], an external
    collaborator) and derives session telemetry from the transitions the
    engine returns: a bounded history, an exploration graph, display names
    for inventory items, vocabulary answers and named snapshots.

    Conventions of the model.
    - A Python [str] is a [string]; a character is an [ascii], read as a code
      point below 256.  Whitespace ([str.strip], [str.isspace]) and
      lower-casing ([str.lower]) are those of Python on these code points.
    - A Python [dict] is a [gmap], a Python [set] a [gset].
    - A method of [GameState] is a state transformer over the record
      [GameState] that either returns a value or raises; what was written to
      [self] before a raise stays written.
    - The engine is an interface ([Engine]); each of its methods may raise
      and may change the engine. *)

From Stdlib Require Import ZArith Ascii String List Lia DecimalString.
From stdpp Require Import gmap strings list sorting.

Local Open Scope Z_scope.
Local Open Scope nat_scope.

(** ** Python strings *)

Module PyStr.

Definition code (c : ascii) : N := N_of_ascii c.

(** [c.isspace()] on code points below 256: TAB..CR, FS..US, SPACE,
    NEL (0x85) and NBSP (0xA0). *)
Definition isspace (c : ascii) : bool :=
  let n := code c in
  ((9 <=? n) && (n <=? 13) || (28 <=? n) && (n <=? 32)
   || (n =? 133) || (n =? 160))%N.

(** [c.lower()] on code points below 256: A..Z and the Latin-1 capitals
    0xC0..0xDE (without 0xD7, the multiplication sign) move up by 32. *)
Definition lower_char (c : ascii) : ascii :=
  let n := code c in
  if ((65 <=? n) && (n <=? 90)
      || (192 <=? n) && (n <=? 222) && negb (n =? 215))%N
  then ascii_of_N (n + 32) else c.

Fixpoint lower (s : string) : string :=
  match s with
  | EmptyString => EmptyString
  | String c s' => String (lower_char c) (lower s')
  end.

Fixpoint all_space (s : string) : bool :=
  match s with
  | EmptyString => true
  | String c s' => isspace c && all_space s'
  end.

Fixpoint lstrip (s : string) : string :=
  match s with
  | EmptyString => EmptyString
  | String c s' => if isspace c then lstrip s' else s
  end.

Fixpoint rstrip (s : string) : string :=
  match s with
  | EmptyString => EmptyString
  | String c s' => if all_space s then EmptyString else String c (rstrip s')
  end.

(** [s.strip()] *)
Definition strip (s : string) : string := rstrip (lstrip s).

Definition cons_head (c : ascii) (l : list string) : list string :=
  match l with
  | [] => [String c EmptyString]
  | h :: t => String c h :: t
  end.

(** [s.split(sep)] for a separator of one character. *)
Fixpoint split (sep : ascii) (s : string) : list string :=
  match s with
  | EmptyString => [EmptyString]
  | String c s' =>
      if Ascii.eqb c sep then EmptyString :: split sep s'
      else cons_head c (split sep s')
  end.

(** [s.split(sep, maxsplit)] for a separator of one character. *)
Fixpoint split_max (sep : ascii) (maxsplit : nat) (s : string) {struct s}
  : list string :=
  match maxsplit, s with
  | O, _ => [s]
  | _, EmptyString => [EmptyString]
  | S k, String c s' =>
      if Ascii.eqb c sep then EmptyString :: split_max sep k s'
      else cons_head c (split_max sep maxsplit s')
  end.

(** [s.startswith(p)] *)
Fixpoint startswith (p s : string) : bool :=
  match p, s with
  | EmptyString, _ => true
  | String _ _, EmptyString => false
  | String a p', String b s' => Ascii.eqb a b && startswith p' s'
  end.

(** [s.find(sub)], with [None] for Python's -1. *)
Fixpoint find (sub s : string) : option nat :=
  if startswith sub s then Some 0
  else match s with
       | EmptyString => None
       | String _ s' => S <$> find sub s'
       end.

(** [sub in s] *)
Definition contains (sub s : string) : bool := bool_decide (is_Some (find sub s)).

(** [s[:n]] *)
Fixpoint take (n : nat) (s : string) : string :=
  match n, s with
  | S k, String c s' => String c (take k s')
  | _, _ => EmptyString
  end.

(** [sep.join(l)] *)
Definition join (sep : string) (l : list string) : string := String.concat sep l.

(** [str(z)] for an [int] *)
Definition of_int (z : Z) : string := NilZero.string_of_int (Z.to_int z).

(** The line feed, Python's ['\n']. *)
Definition LF : ascii := ascii_of_nat 10.
Definition nl : string := String LF EmptyString.

End PyStr.

(** ** Exceptions and results *)

(** A raised Python exception: whether it is an instance of [Exception]
    (what [except Exception] catches; [KeyboardInterrupt] or [SystemExit] are
    not) and its [str()]. *)
Record exn := PyExc { is_Exception : bool; str_exn : string }.

Inductive result (A : Type) : Type :=
| Return (a : A)
| Raise (e : exn).
Arguments Return {A} a.
Arguments Raise {A} e.

Definition IndexError : exn := PyExc true "list index out of range".
Definition ValueError : exn := PyExc true "substring not found".
Definition KeyError (k : string) : exn := PyExc true ("'" +:+ k +:+ "'").

Definition is_Return {A} (r : result A) : bool :=
  match r with Return _ => true | Raise _ => false end.

(** [l[i]] *)
Definition getitem {A} (l : list A) (i : nat) : result A :=
  match l !! i with
  | Some x => Return x
  | None => Raise IndexError
  end.

(** [s.index(sub)] *)
Definition str_index (sub s : string) : result nat :=
  match PyStr.find sub s with
  | Some i => Return i
  | None => Raise ValueError
  end.

(** ** The engine *)

(** One step's result, as the engine produces it.  [inventory] holds the
    [str()] of each item; an absent or empty inventory is the empty list. *)
Record Transition := {
  observation : string;
  score : Z;
  moves : Z;
  reward : Z;
  done : bool;
  inventory : list string
}.

(** The contract of [games.zork_env.TextAdventureEnv].  Each method takes the
    engine and gives its outcome and the engine afterwards.
    [env_get_valid_actions] is the engine's [get_valid_actions]; the plain
    name is kept for the method of [GameState]. *)
Class Engine := {
  env_t : Type;
  snapshot : Type;
  TextAdventureEnv : string -> result env_t;
  reset : env_t -> result Transition * env_t;
  step : env_t -> string -> result Transition * env_t;
  env_get_valid_actions : env_t -> result (list string) * env_t;
  get_dictionary : env_t -> result (list string) * env_t;
  get_state : env_t -> result snapshot * env_t;
  set_state : env_t -> snapshot -> result unit * env_t
}.

(** ** InventoryParser: the body of the loop of [get_inventory] *)

Definition item_name (item_str : string) : result string :=
  let item_lower := PyStr.lower item_str in
  if PyStr.contains "parent" item_lower then
    match str_index "parent" item_lower with
    | Raise e => Raise e
    | Return idx =>
        let name := PyStr.strip (PyStr.take idx item_str) in
        if PyStr.contains ":" name then
          match getitem (PyStr.split_max ":" 1 name) 1 with
          | Raise e => Raise e
          | Return x => Return (PyStr.strip x)
          end
        else Return name
    end
  else if PyStr.contains ":" item_str then
    match getitem (PyStr.split ":" item_str) 1 with
    | Raise e => Raise e
    | Return x => Return (PyStr.strip x)
    end
  else Return item_str.

Fixpoint item_names (items : list string) : result (list string) :=
  match items with
  | [] => Return []
  | item :: rest =>
      match item_name item with
      | Raise e => Raise e
      | Return name =>
          match item_names rest with
          | Raise e => Raise e
          | Return names => Return (name :: names)
          end
      end
  end.

(** ** Location identity *)

Definition _extract_location (observation : string) : string :=
  let lines := PyStr.split PyStr.LF (PyStr.strip observation) in
  match lines with
  | l0 :: _ => l0
  | [] => "Unknown"
  end.

(** The movement vocabulary of [take_action]. *)
Definition movement_actions : list string :=
  ["north"; "south"; "east"; "west"; "up"; "down";
   "enter"; "exit"; "n"; "s"; "e"; "w"; "u"; "d"].

Definition is_movement (action : string) : bool :=
  bool_decide (action ∈ movement_actions).

(** ** The session: class [GameState] *)

Section GameState.
Context `{Engine}.

Record GameState := {
  game_name : string;
  env : env_t;
  state : Transition;
  history : list (string * string);
  explored_locations : gmap string (gset string);
  current_location : string;
  saved_states : gmap string snapshot
}.

(** Assignments to the attributes of [self]. *)
Definition set_env (e : env_t) (self : GameState) : GameState :=
  {| game_name := game_name self; env := e; state := state self;
     history := history self; explored_locations := explored_locations self;
     current_location := current_location self; saved_states := saved_states self |}.
Definition set_state_attr (t : Transition) (self : GameState) : GameState :=
  {| game_name := game_name self; env := env self; state := t;
     history := history self; explored_locations := explored_locations self;
     current_location := current_location self; saved_states := saved_states self |}.
Definition set_history (h : list (string * string)) (self : GameState) : GameState :=
  {| game_name := game_name self; env := env self; state := state self;
     history := h; explored_locations := explored_locations self;
     current_location := current_location self; saved_states := saved_states self |}.
Definition set_explored_locations (m : gmap string (gset string)) (self : GameState)
  : GameState :=
  {| game_name := game_name self; env := env self; state := state self;
     history := history self; explored_locations := m;
     current_location := current_location self; saved_states := saved_states self |}.
Definition set_current_location (l : string) (self : GameState) : GameState :=
  {| game_name := game_name self; env := env self; state := state self;
     history := history self; explored_locations := explored_locations self;
     current_location := l; saved_states := saved_states self |}.
Definition set_saved_states (m : gmap string snapshot) (self : GameState) : GameState :=
  {| game_name := game_name self; env := env self; state := state self;
     history := history self; explored_locations := explored_locations self;
     current_location := current_location self; saved_states := m |}.

(** *** Methods as computations over [self] *)

Definition M (A : Type) : Type := GameState -> result A * GameState.

Definition ret {A} (a : A) : M A := fun self => (Return a, self).
Definition raise {A} (e : exn) : M A := fun self => (Raise e, self).
Definition bind {A B} (m : M A) (k : A -> M B) : M B :=
  fun self =>
    match m self with
    | (Return a, self') => k a self'
    | (Raise e, self') => (Raise e, self')
    end.
Definition gets {A} (f : GameState -> A) : M A := fun self => (Return (f self), self).
Definition modify (f : GameState -> GameState) : M unit := fun self => (Return tt, f self).

(** [try: body / except Exception as e: handler e] *)
Definition try_except {A} (body : M A) (handler : exn -> M A) : M A :=
  fun self =>
    match body self with
    | (Raise e, self') =>
        if is_Exception e then handler e self' else (Raise e, self')
    | r => r
    end.

(** A call of a method of [self.env]. *)
Definition call_env {A} (f : env_t -> result A * env_t) : M A :=
  fun self => let '(r, e) := f (env self) in (r, set_env e self).

Notation "'let*' x ':=' m 'in' k" := (bind m (fun x => k))
  (at level 10, x name, m at level 100, k at level 200).
Notation "'do' m 'then' k" := (bind m (fun _ => k))
  (at level 10, m at level 100, k at level 200).

(** [l[-n:]] for [n > 0] *)
Definition last_n {A} (n : nat) (l : list A) : list A := drop (length l - n) l.

(** [GameState.__init__] *)
Definition init (game : string) : result GameState :=
  match TextAdventureEnv game with
  | Raise e => Raise e
  | Return e0 =>
      match reset e0 with
      | (Raise e, _) => Raise e
      | (Return t, e1) =>
          Return {| game_name := game; env := e1; state := t;
                    history := []; explored_locations := ∅;
                    current_location := _extract_location (observation t);
                    saved_states := ∅ |}
      end
  end.

Definition edge_text (action new_location : string) : string :=
  action +:+ " -> " +:+ new_location.

(** [self.explored_locations[loc].add(e)] *)
Definition add_exit (loc e : string) : M unit :=
  let* m := gets explored_locations in
  match m !! loc with
  | None => raise (KeyError loc)
  | Some exits => modify (set_explored_locations (<[loc := exits ∪ {[e]}]> m))
  end.

Definition take_action (action : string) : M string :=
  let* t := call_env (fun e => step e action) in
  do modify (set_state_attr t) then
  let result := observation t in
  let* h := gets history in
  do modify (set_history (h ++ [(action, result)])) then
  let* h := gets history in
  do (if 50 <? length h then modify (set_history (last_n 50 h)) else ret tt) then
  let new_location := _extract_location result in
  do (if is_movement action then
        let* cur := gets current_location in
        let* m := gets explored_locations in
        do (if bool_decide (cur ∈ dom m) then ret tt
            else modify (set_explored_locations (<[cur := ∅]> m))) then
        if bool_decide (new_location = cur) then ret tt
        else add_exit cur (edge_text action new_location)
      else ret tt) then
  do modify (set_current_location new_location) then
  ret result.

Definition recent_line (entry : string * string) : string :=
  "  > " +:+ entry.1 +:+ " -> " +:+ PyStr.take 60 entry.2 +:+ "...".

Definition get_memory : M string :=
  let* self := gets id in
  let recent := match history self with [] => [] | h => last_n 5 h end in
  let recent_str :=
    match recent with
    | [] => "  (none yet)"
    | _ => PyStr.join PyStr.nl (recent_line <$> recent)
    end in
  ret ("Current State:" +:+ PyStr.nl
       +:+ "    - Location: " +:+ current_location self +:+ PyStr.nl
       +:+ "    - Score: " +:+ PyStr.of_int (score (state self)) +:+ " points" +:+ PyStr.nl
       +:+ "    - Moves: " +:+ PyStr.of_int (moves (state self)) +:+ PyStr.nl
       +:+ "    - Game: " +:+ game_name self +:+ PyStr.nl
       +:+ PyStr.nl
       +:+ "    Recent Actions:" +:+ PyStr.nl
       +:+ "    " +:+ recent_str +:+ PyStr.nl
       +:+ PyStr.nl
       +:+ "    Current Observation:" +:+ PyStr.nl
       +:+ "    " +:+ observation (state self)).

(** [sorted(exits)] and [sorted(self.explored_locations.items())]: the
    keys of a dict are distinct, so the pairs are ordered by their key. *)
Definition sorted_exits (exits : gset string) : list string :=
  merge_sort String.le (elements exits).
Definition sorted_items (m : gmap string (gset string)) : list (string * gset string) :=
  merge_sort (fun x y => String.le x.1 y.1) (map_to_list m).

Definition no_locations_message : string :=
  "Map: No locations explored yet. Try moving around!".
Definition map_header : string := "Explored Locations and Exits:".

Definition location_lines (item : string * gset string) : list string :=
  (PyStr.nl +:+ "* " +:+ item.1)
    :: ((fun exit_info => "    -> " +:+ exit_info) <$> sorted_exits item.2).

Definition get_map : M string :=
  let* self := gets id in
  if bool_decide (explored_locations self = ∅) then ret no_locations_message
  else
    let lines :=
      [map_header]
        ++ concat (location_lines <$> sorted_items (explored_locations self))
        ++ [PyStr.nl +:+ "[Current] " +:+ current_location self] in
    ret (PyStr.join PyStr.nl lines).

Definition get_inventory : M string :=
  let* self := gets id in
  match inventory (state self) with
  | [] => ret "Inventory: You are empty-handed."
  | items =>
      match item_names items with
      | Raise e => raise e
      | Return names => ret ("Inventory: " +:+ PyStr.join ", " names)
      end
  end.

Definition get_valid_actions : M string :=
  try_except
    (let* actions := call_env env_get_valid_actions in
     match actions with
     | [] => ret "No valid actions available."
     | _ =>
         ret ("Valid Actions:" +:+ PyStr.nl
              +:+ PyStr.join PyStr.nl ((fun action => "  - " +:+ action) <$> actions))
     end)
    (fun e => ret ("Could not retrieve valid actions: " +:+ str_exn e)).

Definition vocabulary_yes (word : string) (matches : list string) : string :=
  "Yes, the game understands '" +:+ word +:+ "' (matches: "
    +:+ PyStr.join ", " matches +:+ ").".
Definition vocabulary_no (word : string) : string :=
  "No, the game does NOT understand the word '" +:+ word
    +:+ "'. Try a different synonym.".

Definition check_vocabulary (word : string) : M string :=
  try_except
    (let* vocab := call_env get_dictionary in
     let word_lower := PyStr.lower word in
     let matches := filter (fun w => PyStr.startswith (PyStr.take 6 word_lower) w) vocab in
     match matches with
     | [] => ret (vocabulary_no word)
     | _ => ret (vocabulary_yes word matches)
     end)
    (fun e => ret ("Could not check vocabulary: " +:+ str_exn e)).

Definition save_game (slot_name : string) : M string :=
  try_except
    (let* snap := call_env get_state in
     let* m := gets saved_states in
     do modify (set_saved_states (<[slot_name := snap]> m)) then
     ret ("Game saved successfully to slot: '" +:+ slot_name +:+ "'"))
    (fun e => ret ("Error saving game to slot '" +:+ slot_name +:+ "': " +:+ str_exn e)).

Definition slot_not_found (slot_name : string) : string :=
  "Error: No save found in slot '" +:+ slot_name +:+ "'".
Definition load_failed (slot_name : string) (e : exn) : string :=
  "Error loading game from slot '" +:+ slot_name +:+ "': " +:+ str_exn e.

Definition load_game (slot_name : string) : M string :=
  let* m := gets saved_states in
  match m !! slot_name with
  | None => ret (slot_not_found slot_name)
  | Some snap =>
      try_except
        (do call_env (fun e => set_state e snap) then
         let* t := call_env (fun e => step e "look") in
         do modify (set_state_attr t) then
         do modify (set_current_location (_extract_location (observation t))) then
         ret ("Game loaded from slot: '" +:+ slot_name +:+ "'." +:+ PyStr.nl
              +:+ "Current location: " +:+ observation t))
        (fun e => ret (load_failed slot_name e))
  end.

(** *** The operations a caller can invoke, and runs of them *)

Inductive op :=
| TakeAction (action : string)
| GetMemory
| GetMap
| GetInventory
| GetValidActions
| CheckVocabulary (word : string)
| SaveGame (slot_name : string)
| LoadGame (slot_name : string).

Definition run_op (o : op) : M string :=
  match o with
  | TakeAction a => take_action a
  | GetMemory => get_memory
  | GetMap => get_map
  | GetInventory => get_inventory
  | GetValidActions => get_valid_actions
  | CheckVocabulary w => check_vocabulary w
  | SaveGame s => save_game s
  | LoadGame s => load_game s
  end.

(** Successive [take_action] calls; the run stops at the first raise. *)
Fixpoint play (actions : list string) : M (list string) :=
  match actions with
  | [] => ret []
  | a :: rest =>
      let* r := take_action a in
      let* rs := play rest in
      ret (r :: rs)
  end.

(** The session states a caller can reach: a fresh session, then any
    operations, whether they return or raise. *)
Inductive reachable : GameState -> Prop :=
| reachable_init game self :
    init game = Return self -> reachable self
| reachable_op self o r self' :
    reachable self -> run_op o self = (r, self') -> reachable self'.

(** The edges of the exploration graph. *)
Definition has_edge (self : GameState) (loc e : string) : Prop :=
  exists exits, explored_locations self !! loc = Some exits /\ e ∈ exits.

End GameState.

Arguments GameState : clear implicits.
Arguments M : clear implicits.

(** ** Reading an observation line by line *)

(** The text up to the first line feed. *)
Definition first_line (s : string) : string :=
  match PyStr.split PyStr.LF s with l0 :: _ => l0 | [] => "Unknown" end.

Fixpoint drop_blank (lines : list string) : list string :=
  match lines with
  | [] => []
  | l :: rest => if PyStr.all_space l then drop_blank rest else lines
  end.

(** What [_extract_location] returns, said over the lines of the observation:
    the first line that is not blank, without its leading whitespace, and
    without its trailing whitespace only when every later line is blank. *)
Definition first_line_rule (lines : list string) : string :=
  match drop_blank lines with
  | [] => ""
  | l :: rest =>
      if forallb PyStr.all_space rest then PyStr.strip l else PyStr.lstrip l
  end.

(** The location as the specification words it: the first non-empty line of
    the observation, trimmed of surrounding whitespace ([None] when the
    observation has no such line). *)
Definition first_nonempty_line_trimmed (observation : string) : option string :=
  PyStr.strip <$> head (filter (fun l => l ≠ "") (PyStr.split PyStr.LF observation)).

(** ** A small engine to run the session on

    Two rooms, a kitchen and a hall to its north.  [look] is a no-op that
    costs no move; a fragile engine raises on [look]. *)

Module Toy.

Record world := {
  room : nat;
  turns : Z;
  vocab : list string;
  fragile : bool
}.

Definition room_text (r : nat) : string :=
  match r with
  | O => "Kitchen" +:+ PyStr.nl +:+ "A small kitchen. A door leads north."
  | _ => "Hall" +:+ PyStr.nl +:+ "A long hall. The kitchen is south."
  end.

Definition describe (w : world) : Transition :=
  {| observation := room_text (room w);
     score := 10 * Z.of_nat (room w);
     moves := turns w;
     reward := 0;
     done := false;
     inventory := [] |}.

Definition move (action : string) (r : nat) : nat :=
  if bool_decide (action = "north" \/ action = "n") then 1
  else if bool_decide (action = "south" \/ action = "s") then 0
  else r.

Definition crash : exn := PyExc true "engine crashed".

Definition toy_step (w : world) (action : string) : result Transition * world :=
  if bool_decide (action = "look") then
    if fragile w then (Raise crash, w) else (Return (describe w), w)
  else
    let w' := {| room := move action (room w); turns := (turns w + 1)%Z;
                 vocab := vocab w; fragile := fragile w |} in
    (Return (describe w'), w').

(** The engine whose dictionary is [v]. *)
Definition engine (v : list string) (frag : bool) : Engine :=
  {| env_t := world;
     snapshot := world;
     TextAdventureEnv := fun _ =>
       Return {| room := 0; turns := 0; vocab := v; fragile := frag |};
     reset := fun w => (Return (describe w), w);
     step := toy_step;
     env_get_valid_actions := fun w => (Return ["north"; "south"; "look"], w);
     get_dictionary := fun w => (Return (vocab w), w);
     get_state := fun w => (Return w, w);
     set_state := fun _ snap => (Return tt, snap) |}.

(** A fresh session on that engine. *)
Definition fresh (v : list string) (frag : bool) : GameState (engine v frag) :=
  let w := {| room := 0; turns := 0; vocab := v; fragile := frag |} in
  @Build_GameState (engine v frag) "toy" w (describe w) [] ∅ "Kitchen" ∅.

(** Sessions and runs used below. *)
Definition quiet : Engine := engine [] false.
Definition brittle : Engine := engine [] true.

Definition sixty_actions : list string :=
  concat (replicate 15 ["north"; "look"; "south"; "take lamp"]).

Definition returned {A} (d : A) (r : result A) : A :=
  match r with Return a => a | Raise _ => d end.

Definition start : GameState quiet := fresh [] false.
Definition in_hall : GameState quiet := (take_action (H := quiet) "north" start).2.

(** A session on the fragile engine with slot ["a"] saved. *)
Definition kitchen : @env_t brittle :=
  {| room := 0; turns := 0; vocab := []; fragile := true |}.
Definition saved : GameState brittle :=
  (save_game (H := brittle) "a" (fresh [] true)).2.

Definition words3 : list string := ["xyzzy"; "xyzzyq"; "plugh"].

End Toy.

(** ** The tool layer

    The functions the server registers as tools.  [_game_state], the
    module-level session, is [None] until the first tool call builds it;
    [get_game] hands out the one session object, so what a method writes to
    it is what the next tool call finds. *)

Module Tool.
Section Tools.
Context `{Engine}.

(** [INITIAL_GAME], read from the environment when the module is loaded. *)
Variable INITIAL_GAME : string.

Local Notation "'let*' x ':=' m 'in' k" := (bind m (fun x => k))
  (at level 10, x name, m at level 100, k at level 200).

Definition get_game (_game_state : option (GameState _))
  : result (GameState _) * option (GameState _) :=
  match _game_state with
  | Some game => (Return game, _game_state)
  | None =>
      match init INITIAL_GAME with
      | Return game => (Return game, Some game)
      | Raise e => (Raise e, None)
      end
  end.

(** [get_game().method(...)]: the method runs on the session object the
    module holds. *)
Definition on_game {A} (method : M _ A) (_game_state : option (GameState _))
  : result A * option (GameState _) :=
  match get_game _game_state with
  | (Raise e, g) => (Raise e, g)
  | (Return game, _) => let '(r, game') := method game in (r, Some game')
  end.

Definition score_info (t : Transition) : string :=
  if (0 <? reward t)%Z then
    PyStr.nl +:+ PyStr.nl +:+ "+" +:+ PyStr.of_int (reward t)
      +:+ " points! (Total: " +:+ PyStr.of_int (score t) +:+ ")"
  else
    PyStr.nl +:+ PyStr.nl +:+ "[Score: " +:+ PyStr.of_int (score t)
      +:+ " | Moves: " +:+ PyStr.of_int (moves t) +:+ "]".

Definition done_info (t : Transition) : string :=
  if done t then PyStr.nl +:+ PyStr.nl +:+ "GAME OVER" else "".

Definition play_action_on (action : string) : M _ string :=
  let* result := take_action action in
  let* t := gets state in
  ret (result +:+ score_info t +:+ done_info t).

(** The tools [get_map] and [check_vocabulary] carry the names of the
    methods they call; on the right of [:=] the name is still the method. *)
Definition play_action (action : string) := on_game (play_action_on action).
Definition memory := on_game get_memory.
Definition get_map := on_game get_map.
Definition inventory := on_game get_inventory.
Definition valid_actions := on_game get_valid_actions.
Definition check_vocabulary (word : string) := on_game (check_vocabulary word).
Definition save_state (slot_name : string) := on_game (save_game slot_name).
Definition load_state (slot_name : string) := on_game (load_game slot_name).

(** A tool call, named by the operation it reaches. *)
Definition call (o : op) : option (GameState _) -> result string * option (GameState _) :=
  match o with
  | TakeAction a => play_action a
  | GetMemory => memory
  | GetMap => get_map
  | GetInventory => inventory
  | GetValidActions => valid_actions
  | CheckVocabulary w => check_vocabulary w
  | SaveGame s => save_state s
  | LoadGame s => load_state s
  end.

Fixpoint calls (os : list op) (_game_state : option (GameState _))
  : option (GameState _) :=
  match os with
  | [] => _game_state
  | o :: rest => calls rest (call o _game_state).2
  end.

End Tools.
End Tool.

(** ** Runs of operations on a session *)

Fixpoint run_ops `{Engine} (os : list op) (self : GameState _) : GameState _ :=
  match os with
  | [] => self
  | o :: rest => run_ops rest (run_op o self).2
  end.

(** [s.endswith(suffix)] *)
Fixpoint endswith (suffix s : string) : bool :=
  if bool_decide (s = suffix) then true
  else match s with
       | EmptyString => false
       | String _ s' => endswith suffix s'
       end.

(** The list of lines [get_map] joins when some location is explored. *)
Definition map_lines `{Engine} (self : GameState _) : list string :=
  [map_header]
    ++ concat (location_lines <$> sorted_items (explored_locations self))
    ++ [PyStr.nl +:+ "[Current] " +:+ current_location self].

(** The report of [check_vocabulary] for a word and its matches. *)
Definition vocabulary_report (word : string) (matches : list string) : string :=
  match matches with
  | [] => vocabulary_no word
  | _ => vocabulary_yes word matches
  end.

(** ** An engine that can go down

    The engine is a flag: once the action ["unplug"] was taken, every
    method raises.  It cannot be built for the game ["no such game"]. *)

Module Flaky.

Definition down_error : exn := PyExc true "engine down".

Definition blank : Transition :=
  {| observation := "Cellar"; score := 0; moves := 0; reward := 0;
     done := false; inventory := [] |}.

Definition guard {A} (down : bool) (r : A) (after : bool) : result A * bool :=
  if down then (Raise down_error, down) else (Return r, after).

Definition engine : Engine :=
  {| env_t := bool;
     snapshot := bool;
     TextAdventureEnv := fun game =>
       if bool_decide (game = "no such game") then Raise (PyExc true "unknown game")
       else Return false;
     reset := fun down => guard down blank down;
     step := fun down action => guard down blank (bool_decide (action = "unplug"));
     env_get_valid_actions := fun down => guard down ["look"; "unplug"] down;
     get_dictionary := fun down => guard down ["look"; "unplug"] down;
     get_state := fun down => guard down down down;
     set_state := fun down snap => guard down tt snap |}.

Definition fresh : GameState engine :=
  @Build_GameState engine "flaky" false blank [] ∅ "Cellar" ∅.

(** A session with slot ["a"] saved, and the engine then brought down. *)
Definition unplugged : GameState engine :=
  run_ops (H := engine) [SaveGame "a"; TakeAction "unplug"] fresh.

End Flaky.

(** * Properties *)

(** ** Strings *)

Section StringFacts.
Import PyStr.

Example strip_examples : strip "  a b  " = "a b" /\ strip "   " = "".
Proof. split; reflexivity. Qed.

Example split_examples :
  split ":" "a:b:c" = ["a"; "b"; "c"] /\ split ":" "" = [""]
  /\ split ":" ":" = [""; ""] /\ split_max ":" 1 "a:b:c" = ["a"; "b:c"].
Proof. repeat split; reflexivity. Qed.

Example find_examples :
  find "parent" "lamp parent" = Some 5 /\ contains "x" "abc" = false
  /\ find "" "" = Some 0.
Proof. repeat split; reflexivity. Qed.

Example of_int_examples :
  of_int 0 = "0" /\ of_int (-12) = "-12" /\ of_int 350 = "350".
Proof. repeat split; reflexivity. Qed.

Example lower_examples : lower "PaRent:X" = "parent:x".
Proof. reflexivity. Qed.

Lemma isspace_LF : isspace LF = true.
Proof. reflexivity. Qed.

Lemma split_cons_inv sep s : exists h t, split sep s = h :: t.
Proof.
  induction s as [|c s [h [t IH]]]; simpl; [by eauto|].
  destruct (Ascii.eqb c sep); [by eauto|]. rewrite IH. simpl. eauto.
Qed.

Lemma all_space_split s :
  all_space s = forallb all_space (split LF s).
Proof.
  induction s as [|c s IH]; simpl; [done|].
  destruct (Ascii.eqb c LF) eqn:Hc.
  - apply Ascii.eqb_eq in Hc as ->. simpl. by rewrite IH.
  - destruct (split_cons_inv LF s) as [h [t Hs]].
    rewrite Hs in *. simpl in *. rewrite IH. by rewrite andb_assoc.
Qed.

Lemma first_line_rstrip s :
  first_line (rstrip s) =
    match split LF s with
    | h :: t => if forallb all_space t then rstrip h else h
    | [] => "Unknown"
    end.
Proof.
  unfold first_line. induction s as [|c s IH]; [done|].
  cbn [rstrip]. cbn [split].
  destruct (split_cons_inv LF s) as [h [t Hs]].
  destruct (Ascii.eqb c LF) eqn:Hc.
  - apply Ascii.eqb_eq in Hc as ->.
    cbn [all_space]. rewrite isspace_LF, (all_space_split s). simpl.
    by destruct (forallb all_space (split LF s)).
  - rewrite Hs in *. cbn [cons_head].
    rewrite (all_space_split (String c s)). cbn [split]. rewrite Hc, Hs.
    cbn [cons_head forallb].
    destruct (all_space (String c h)) eqn:Hch; cbn [andb].
    + destruct (forallb all_space t); [by cbn [rstrip]; rewrite Hch|].
      cbn [split]. rewrite Hc.
      destruct (split_cons_inv LF (rstrip s)) as [h' [t' Hs']].
      rewrite Hs' in *. simpl. by rewrite IH.
    + cbn [split]. rewrite Hc.
      destruct (split_cons_inv LF (rstrip s)) as [h' [t' Hs']].
      rewrite Hs' in *. cbn [cons_head]. rewrite IH.
      destruct (forallb all_space t); [|done].
      cbn [rstrip]. by rewrite Hch.
Qed.

Lemma first_line_rule_strip s :
  first_line (strip s) = first_line_rule (split LF s).
Proof.
  unfold strip. induction s as [|c s IH]; [done|].
  cbn [lstrip split].
  destruct (split_cons_inv LF s) as [h [t Hs]].
  destruct (Ascii.eqb c LF) eqn:Hc.
  - apply Ascii.eqb_eq in Hc as ->. rewrite isspace_LF. by rewrite IH.
  - rewrite Hs in *. cbn [cons_head].
    destruct (isspace c) eqn:Hsp.
    + rewrite IH. unfold first_line_rule. cbn [drop_blank all_space].
      rewrite Hsp. cbn [andb].
      destruct (all_space h); [done|].
      unfold strip. cbn [lstrip]. by rewrite Hsp.
    + rewrite first_line_rstrip. cbn [split]. rewrite Hc, Hs. cbn [cons_head].
      unfold first_line_rule. cbn [drop_blank all_space]. rewrite Hsp.
      cbn [andb]. unfold strip. cbn [lstrip]. by rewrite Hsp.
Qed.

End StringFacts.

(** ** Location identity *)

Lemma extract_location_first_line observation :
  _extract_location observation = first_line (PyStr.strip observation).
Proof. reflexivity. Qed.

(** C9 (as the code has it): the derived location is the first non-blank
    line of the observation without its leading whitespace; the trailing
    whitespace of that line is removed only when no non-blank line follows
    it, and the location is the empty string when every line is blank. *)
Theorem extract_location_lines (observation : string) :
  _extract_location observation
  = first_line_rule (PyStr.split PyStr.LF observation).
Proof.
  rewrite extract_location_first_line. apply first_line_rule_strip.
Qed.

(** C9 (as stated) fails: with a further line after it, the first line keeps
    its trailing whitespace. *)
Lemma extract_location_keeps_trailing_space :
  let observation := "Kitchen  " +:+ PyStr.nl +:+ "A small kitchen." in
  first_nonempty_line_trimmed observation = Some "Kitchen"
  /\ _extract_location observation = "Kitchen  "
  /\ Some (_extract_location observation) <> first_nonempty_line_trimmed observation.
Proof. repeat split; vm_compute; congruence. Qed.

Example extract_location_blank : _extract_location "   " = "".
Proof. reflexivity. Qed.

Example extract_location_leading_blank_lines :
  _extract_location (PyStr.nl +:+ "  " +:+ PyStr.nl +:+ " West of House " +:+ PyStr.nl)
  = "West of House".
Proof. reflexivity. Qed.

(** ** InventoryParser *)

Section InventoryParser.
Import PyStr.

Lemma contains_true sub s : contains sub s = true <-> is_Some (find sub s).
Proof. unfold contains. apply bool_decide_eq_true. Qed.

Lemma find_sep_cons sep c s :
  find (String sep "") (String c s)
  = if Ascii.eqb c sep then Some 0 else S <$> find (String sep "") s.
Proof.
  cbn [find startswith]. rewrite Ascii.eqb_sym.
  by destruct (Ascii.eqb c sep).
Qed.

Lemma split_second sep s :
  contains (String sep "") s = true -> exists x, split sep s !! 1 = Some x.
Proof.
  rewrite contains_true. induction s as [|c s IH]; intros [i Hi].
  - discriminate Hi.
  - rewrite find_sep_cons in Hi. cbn [split].
    destruct (split_cons_inv sep s) as [h [t Hs]].
    destruct (Ascii.eqb c sep); [rewrite Hs; by eauto|].
    destruct (find (String sep "") s) as [j|] eqn:Hj; [|discriminate Hi].
    destruct IH as [x Hx]; [by eauto|]. rewrite Hs in *. by eauto.
Qed.

Lemma split_max_second sep s :
  contains (String sep "") s = true -> exists x, split_max sep 1 s !! 1 = Some x.
Proof.
  rewrite contains_true. induction s as [|c s IH]; intros [i Hi].
  - discriminate Hi.
  - rewrite find_sep_cons in Hi. cbn [split_max].
    destruct (Ascii.eqb c sep); [by destruct s; eauto|].
    destruct (find (String sep "") s) as [j|] eqn:Hj; [|discriminate Hi].
    destruct IH as [x Hx]; [by eauto|].
    destruct (split_max sep 1 s) as [|h t]; [discriminate Hx|]. by eauto.
Qed.

(** The guards of [get_inventory] make its indexing safe: the parser
    returns a name for every descriptor. *)
Lemma item_name_total item_str : exists name, item_name item_str = Return name.
Proof.
  unfold item_name.
  destruct (contains "parent" (lower item_str)) eqn:Hp.
  - apply contains_true in Hp as [idx Hidx].
    unfold str_index. rewrite Hidx.
    destruct (contains ":" (strip (take idx item_str))) eqn:Hc; [|by eauto].
    apply split_max_second in Hc as [x Hx].
    unfold getitem. rewrite Hx. by eauto.
  - destruct (contains ":" item_str) eqn:Hc; [|by eauto].
    apply split_second in Hc as [x Hx].
    unfold getitem. rewrite Hx. by eauto.
Qed.

Lemma item_names_total items : exists names, item_names items = Return names.
Proof.
  induction items as [|item rest [names IH]]; simpl; [by eauto|].
  destruct (item_name_total item) as [name ->]. rewrite IH. by eauto.
Qed.

End InventoryParser.

(** C3 (as the code has it): for the descriptor
    ["lamp:Object#123 parent:room"] the inventory parser produces the display
    name ["Object#123"]: the text before ["parent"], and of that the text
    after its colon. *)
Theorem item_name_lamp_descriptor :
  item_name "lamp:Object#123 parent:room" = Return "Object#123".
Proof. reflexivity. Qed.

(** C3 (as stated) fails: the display name is not ["lamp"]. *)
Lemma item_name_lamp_descriptor_not_lamp :
  item_name "lamp:Object#123 parent:room" <> Return "lamp".
Proof. vm_compute. congruence. Qed.

(** C4 at a descriptor with two colons and no ["parent"]: the parser returns
    only the text between the first and the second colon, where
    [split(":", 1)], which the ["parent"] branch uses, gives all the text
    after the first colon. *)
Theorem item_name_two_colons :
  let item_str := "Obj5: brass lantern: lit" in
  PyStr.contains "parent" (PyStr.lower item_str) = false
  /\ PyStr.contains ":" item_str = true
  /\ item_name item_str = Return "brass lantern"
  /\ PyStr.strip <$> (PyStr.split_max ":" 1 item_str !! 1) = Some "brass lantern: lit".
Proof. repeat split; reflexivity. Qed.

(** With exactly one colon the two ways of splitting agree. *)
Example item_name_one_colon : item_name "Obj5: brass lantern" = Return "brass lantern".
Proof. reflexivity. Qed.

(** ** The session *)

Section Session.
Context `{Engine}.
Implicit Types (self : GameState _) (action slot_name : string).

Lemma last_n_short {A} n (l : list A) : length l <= n -> last_n n l = l.
Proof. intros Hl. unfold last_n. by replace (length l - n) with 0 by lia. Qed.

Lemma last_n_length {A} n (l : list A) : length (last_n n l) = min (length l) n.
Proof. unfold last_n. rewrite length_drop. lia. Qed.

Lemma last_n_app_last_n {A} n (l k : list A) :
  last_n n (last_n n l ++ k) = last_n n (l ++ k).
Proof.
  unfold last_n. rewrite !length_app, length_drop.
  rewrite !drop_app, drop_drop, length_drop.
  f_equal; f_equal; lia.
Qed.

(** What the exploration graph becomes in [take_action]. *)
Lemma take_action_raises action self x e' :
  step (env self) action = (Raise x, e') ->
  take_action action self = (Raise x, set_env e' self).
Proof.
  intros Hstep. unfold take_action, bind, call_env. by rewrite Hstep.
Qed.

Lemma take_action_returns action self t e' :
  step (env self) action = (Return t, e') ->
  exists self',
    take_action action self = (Return (observation t), self')
    /\ env self' = e' /\ state self' = t
    /\ game_name self' = game_name self
    /\ saved_states self' = saved_states self
    /\ history self' = last_n 50 (history self ++ [(action, observation t)])
    /\ current_location self' = _extract_location (observation t)
    /\ explored_locations self' =
         let cur := current_location self in
         let new_location := _extract_location (observation t) in
         let m := explored_locations self in
         if is_movement action then
           let m1 := if bool_decide (cur ∈ dom m) then m else <[cur := ∅]> m in
           if bool_decide (new_location = cur) then m1
           else <[cur := default ∅ (m1 !! cur) ∪ {[edge_text action new_location]}]> m1
         else m.
Proof.
  intros Hstep.
  unfold take_action, bind, call_env, modify, gets, ret. rewrite Hstep.
  cbn -[Nat.ltb last_n is_movement _extract_location edge_text].
  set (h := history self ++ [(action, observation t)]).
  assert (Hh : (if 50 <? length h then last_n 50 h else h) = last_n 50 h).
  { destruct (50 <? length h) eqn:Hlen; [done|].
    apply Nat.ltb_ge in Hlen. by rewrite last_n_short. }
  rewrite <- Hh. clear Hh.
  destruct (is_movement action) eqn:Hmv;
    destruct (50 <? length h) eqn:Hlen;
    cbn -[Nat.ltb last_n is_movement _extract_location edge_text];
    try (eexists; repeat split; done).
  all: destruct (bool_decide (current_location self ∈ dom (explored_locations self)))
         eqn:Hdom;
    cbn -[Nat.ltb last_n is_movement _extract_location edge_text];
    (destruct (bool_decide (_extract_location (observation t) = current_location self))
       eqn:Hsame;
     cbn -[Nat.ltb last_n is_movement _extract_location edge_text];
     [eexists; repeat split; done|]).
  all: unfold add_exit, bind, gets, modify;
    cbn -[Nat.ltb last_n is_movement _extract_location edge_text].
  all: try rewrite lookup_insert_eq.
  all: try (apply bool_decide_eq_true, elem_of_dom in Hdom as [exits Hexits];
            rewrite Hexits).
  all: eexists; repeat split; done.
Qed.

(** Unfolding a method down to the calls of the engine. *)
Ltac unfold_methods :=
  unfold run_op, get_memory, get_map, get_inventory, get_valid_actions,
    check_vocabulary, save_game, load_game, try_except, bind, call_env,
    gets, modify, ret, raise in *.

Ltac run_methods :=
  unfold_methods;
  repeat (cbn -[_extract_location PyStr.join PyStr.lower PyStr.take] in *;
          case_match; simplify_eq);
  cbn -[_extract_location PyStr.join PyStr.lower PyStr.take] in *.

(** Every operation but [take_action] leaves history and exploration
    graph as they are. *)
Lemma other_ops_frame o self r self' :
  (forall action, o <> TakeAction action) ->
  run_op o self = (r, self') ->
  explored_locations self' = explored_locations self
  /\ history self' = history self
  /\ game_name self' = game_name self.
Proof.
  intros Hnot Hrun. destruct o; [by destruct (Hnot action)|..];
    run_methods; done.
Qed.



Lemma take_action_inv action self result self' :
  take_action action self = (Return result, self') ->
  exists t e',
    step (env self) action = (Return t, e') /\ result = observation t
    /\ history self' = last_n 50 (history self ++ [(action, result)])
    /\ current_location self' = _extract_location result
    /\ explored_locations self' =
         let cur := current_location self in
         let new_location := _extract_location result in
         let m := explored_locations self in
         if is_movement action then
           let m1 := if bool_decide (cur ∈ dom m) then m else <[cur := ∅]> m in
           if bool_decide (new_location = cur) then m1
           else <[cur := default ∅ (m1 !! cur) ∪ {[edge_text action new_location]}]> m1
         else m.
Proof.
  intros Hrun. destruct (step (env self) action) as [[t|x] e'] eqn:Hstep.
  - destruct (take_action_returns _ _ _ _ Hstep)
      as (s1 & Hs1 & _ & _ & _ & _ & Hh & Hloc & Hex).
    rewrite Hs1 in Hrun. simplify_eq. by eauto 10.
  - rewrite (take_action_raises _ _ _ _ Hstep) in Hrun. by simplify_eq.
Qed.

(** *** HistoryLog *)

Lemma play_history actions : forall self results self',
  length (history self) <= 50 ->
  play actions self = (Return results, self') ->
  length results = length actions
  /\ history self' = last_n 50 (history self ++ zip actions results).
Proof.
  induction actions as [|a rest IH]; intros self results self' Hlen Hplay.
  - cbn in Hplay. unfold ret in Hplay. simplify_eq.
    by rewrite app_nil_r, last_n_short.
  - cbn [play] in Hplay. unfold bind at 1 in Hplay.
    destruct (take_action a self) as [[r|x] s1] eqn:Hact; [|done].
    unfold bind, ret in Hplay.
    destruct (play rest s1) as [[rs|x] s2] eqn:Hrest; [|done].
    simplify_eq.
    destruct (take_action_inv _ _ _ _ Hact) as (t & e' & _ & _ & Hh & _).
    destruct (IH s1 rs self') as [Hlen' Hh']; [|done|].
    { rewrite Hh, last_n_length. lia. }
    split; [by cbn; rewrite Hlen'|].
    rewrite Hh', Hh, last_n_app_last_n. by rewrite <- app_assoc.
Qed.

(** C1: after [n] calls of [take_action] on a fresh session, each of which
    returned, the history holds exactly [min n 50] entries: the
    (action, result) pairs of the most recent [min n 50] actions, in the
    order they were taken; beyond 50 actions the oldest are discarded
    first. *)
Theorem history_holds_last_50 (game : string) (self0 self : GameState _)
    (actions results : list string) :
  init game = Return self0 ->
  play actions self0 = (Return results, self) ->
  length results = length actions
  /\ history self = drop (length actions - 50) (zip actions results)
  /\ length (history self) = min (length actions) 50.
Proof.
  intros Hinit Hplay.
  assert (Hfresh : history self0 = []).
  { unfold init in Hinit. repeat case_match; by simplify_eq. }
  destruct (play_history actions self0 results self) as [Hlen Hh]; [|done|].
  { rewrite Hfresh. cbn. lia. }
  rewrite Hfresh in Hh. cbn [app] in Hh.
  assert (Hzip : length (zip actions results) = length actions).
  { rewrite length_zip_with. lia. }
  split; [done|]. split.
  - rewrite Hh. unfold last_n. by rewrite Hzip.
  - rewrite Hh, last_n_length, Hzip. done.
Qed.

(** *** ExplorationGraph *)

Lemma edge_insert_empty (m : gmap string (gset string)) cur loc e :
  m !! cur = None ->
  (exists exits, <[cur := ∅]> m !! loc = Some exits /\ e ∈ exits)
  <-> (exists exits, m !! loc = Some exits /\ e ∈ exits).
Proof.
  intros Hnone. destruct (decide (cur = loc)) as [->|Hne].
  - rewrite lookup_insert_eq, Hnone. split; intros (exits & ? & ?); set_solver.
  - by rewrite lookup_insert_ne.
Qed.

Lemma edge_insert_add (m : gmap string (gset string)) cur x loc e :
  (exists exits,
      <[cur := default ∅ (m !! cur) ∪ {[x]}]> m !! loc = Some exits /\ e ∈ exits)
  <-> (exists exits, m !! loc = Some exits /\ e ∈ exits) \/ (loc = cur /\ e = x).
Proof.
  destruct (decide (cur = loc)) as [->|Hne].
  - rewrite lookup_insert_eq. split.
    + intros (exits & ? & He). simplify_eq.
      apply elem_of_union in He as [He|He]; [|set_solver].
      destruct (m !! loc) as [old|]; [by eauto|set_solver].
    + intros [(exits & Hl & He)|[_ ->]]; eexists; (split; [done|]).
      * rewrite Hl. set_solver.
      * set_solver.
  - rewrite lookup_insert_ne by done. split; [by left|].
    intros [?|[-> _]]; done.
Qed.

(** C2: an operation never removes an edge of the exploration graph; and a
    [take_action] that returns inserts an edge exactly when the action is
    one of the movement actions ([north], [south], [east], [west], [up],
    [down], [enter], [exit], [n], [s], [e], [w], [u], [d]) and the location
    derived from the result differs from the location before the step.  The
    edge is the one string ["<action> -> <new location>"] under the key of
    the prior location; when it is already there the graph stays as it
    is. *)
Theorem exploration_edges (o : op) (self self' : GameState _) (r : result string) :
  run_op o self = (r, self') ->
  (forall loc e, has_edge self loc e -> has_edge self' loc e)
  /\ (forall action result,
        o = TakeAction action -> r = Return result ->
        let cur := current_location self in
        let new_location := _extract_location result in
        (forall loc e,
            has_edge self' loc e
            <-> has_edge self loc e
                \/ (action ∈ movement_actions /\ new_location <> cur
                    /\ loc = cur /\ e = action +:+ " -> " +:+ new_location))
        /\ (has_edge self cur (action +:+ " -> " +:+ new_location) ->
            explored_locations self' = explored_locations self)).
Proof.
  intros Hrun.
  assert (Htake : forall action result,
    o = TakeAction action -> r = Return result ->
    (forall loc e,
        has_edge self' loc e
        <-> has_edge self loc e
            \/ (action ∈ movement_actions
                /\ _extract_location result <> current_location self
                /\ loc = current_location self
                /\ e = edge_text action (_extract_location result)))
    /\ (has_edge self (current_location self)
                 (edge_text action (_extract_location result)) ->
        explored_locations self' = explored_locations self)).
  { intros action result -> ->. cbn in Hrun.
    destruct (take_action_inv _ _ _ _ Hrun) as (t & e' & _ & _ & _ & _ & Hex).
    cbn zeta in Hex. unfold has_edge. rewrite Hex. clear Hex Hrun.
    unfold is_movement. case_bool_decide as Hmv; [|tauto].
    split.
    - intros loc e.
      case_bool_decide as Hsame; case_bool_decide as Hdom.
      + tauto.
      + apply not_elem_of_dom in Hdom. rewrite edge_insert_empty by done.
        tauto.
      + rewrite edge_insert_add. tauto.
      + apply not_elem_of_dom in Hdom.
        rewrite edge_insert_add, edge_insert_empty by done. tauto.
    - intros (exits & Hl & He).
      assert (Hdom : current_location self ∈ dom (explored_locations self))
        by (apply elem_of_dom; eauto).
      rewrite (bool_decide_eq_true_2 _ Hdom).
      case_bool_decide; [done|]. rewrite Hl. cbn.
      apply insert_id. rewrite Hl. f_equal.
      rewrite (comm_L (∪)). symmetry.
      apply subseteq_union_1_L. by apply singleton_subseteq_l. }
  split; [|exact Htake].
  intros loc e Hedge. destruct o.
  2-8: (edestruct other_ops_frame as [Hex _]; [|exact Hrun|]; [done|];
        unfold has_edge; by rewrite Hex).
  destruct r as [result|x].
  - apply (Htake action result); auto.
  - cbn in Hrun. destruct (step (env self) action) as [[t|x'] e'] eqn:Hstep.
    + destruct (take_action_returns _ _ _ _ Hstep) as (s1 & Hs1 & _).
      rewrite Hs1 in Hrun. done.
    + rewrite (take_action_raises _ _ _ _ Hstep) in Hrun. by simplify_eq.
Qed.

(** No operation but [take_action] adds an edge either. *)
Lemma only_take_action_adds_edges o self r self' loc e :
  run_op o self = (r, self') ->
  has_edge self' loc e -> ~ has_edge self loc e ->
  exists action, o = TakeAction action /\ is_movement action = true.
Proof.
  intros Hrun Hnew Hold. destruct o.
  2-8: (edestruct other_ops_frame as [Hex _]; [|exact Hrun|]; [done|];
        unfold has_edge in *; rewrite Hex in Hnew; done).
  exists action. split; [done|]. cbn in Hrun.
  destruct (step (env self) action) as [[t|x'] e'] eqn:Hstep.
  - destruct (take_action_returns _ _ _ _ Hstep)
      as (s1 & Hs1 & _ & _ & _ & _ & _ & _ & Hex).
    rewrite Hs1 in Hrun. simplify_eq. cbn zeta in Hex.
    destruct (is_movement action); [done|].
    unfold has_edge in *. rewrite Hex in Hnew. done.
  - rewrite (take_action_raises _ _ _ _ Hstep) in Hrun. by simplify_eq.
Qed.



(** *** Failures of the engine *)

(** C6 (as the code has it): when the engine's step raises in
    [take_action] the exception reaches the caller; when it raises in the
    synchronizing [look] of [load_game], after the state was restored, an
    instance of [Exception] is caught and [load_game] returns the text
    ["Error loading game from slot '<slot>': <message>"]; only an
    exception outside [Exception] reaches the caller.  In both cases only
    the engine has changed. *)
Theorem step_failure_handling (self : GameState _) (x : exn) (e2 : env_t) :
  (forall action,
      step (env self) action = (Raise x, e2) ->
      take_action action self = (Raise x, set_env e2 self))
  /\ (forall slot_name snap e1,
        saved_states self !! slot_name = Some snap ->
        set_state (env self) snap = (Return tt, e1) ->
        step e1 "look" = (Raise x, e2) ->
        load_game slot_name self
        = (if is_Exception x then Return (load_failed slot_name x) else Raise x,
           set_env e2 self)).
Proof.
  split; [intros action; apply take_action_raises|].
  intros slot_name snap e1 Hslot Hset Hlook.
  unfold load_game, bind, gets, try_except, call_env. rewrite Hslot.
  rewrite Hset. cbn. rewrite Hlook. cbn. by destruct (is_Exception x).
Qed.

(** *** SaveSlotStore *)

(** C7: [load_game] with a slot name that is not in the store returns the
    not-found text without raising and leaves the whole session, the
    engine included, as it was. *)
Theorem load_missing_slot (slot_name : string) (self : GameState _) :
  saved_states self !! slot_name = None ->
  load_game slot_name self = (Return (slot_not_found slot_name), self).
Proof.
  intros Hslot. unfold load_game, bind, gets, ret. by rewrite Hslot.
Qed.


(** *** VocabularyIndex *)

(** C5 (as the code has it): [check_vocabulary "xyzzyqq"] matches the
    dictionary tokens that start with ["xyzzyq"], the first 6 characters
    of the word.  With such a token in the dictionary it returns the
    positive report listing exactly those tokens; the token ["xyzzy"] is
    not one of them; with no such token it returns the negative report. *)
Theorem check_vocabulary_xyzzyqq (self : GameState _) (vocab : list string)
    (e' : env_t) :
  get_dictionary (env self) = (Return vocab, e') ->
  let matches := filter (fun w => PyStr.startswith "xyzzyq" w) vocab in
  ((exists w, w ∈ vocab /\ PyStr.startswith "xyzzyq" w = true) ->
   check_vocabulary "xyzzyqq" self
   = (Return (vocabulary_yes "xyzzyqq" matches), set_env e' self))
  /\ (forall w, w ∈ matches <-> PyStr.startswith "xyzzyq" w = true /\ w ∈ vocab)
  /\ ("xyzzy" ∉ matches)
  /\ ((forall w, w ∈ vocab -> PyStr.startswith "xyzzyq" w = false) ->
      check_vocabulary "xyzzyqq" self
      = (Return (vocabulary_no "xyzzyqq"), set_env e' self)).
Proof.
  intros Hdict matches.
  assert (Hmem : forall w,
    w ∈ matches <-> PyStr.startswith "xyzzyq" w = true /\ w ∈ vocab).
  { intros w. unfold matches. rewrite list_elem_of_filter.
    by rewrite Is_true_true. }
  assert (Hrun : check_vocabulary "xyzzyqq" self
                 = (Return (match matches with
                            | [] => vocabulary_no "xyzzyqq"
                            | _ => vocabulary_yes "xyzzyqq" matches
                            end), set_env e' self)).
  { unfold check_vocabulary, try_except, bind, call_env, ret. rewrite Hdict.
    change (PyStr.take 6 (PyStr.lower "xyzzyqq")) with "xyzzyq".
    fold matches. by destruct matches. }
  clearbody matches.
  split; [|split; [exact Hmem|split]].
  - intros (w & Hw & Hstart). rewrite Hrun.
    destruct matches as [|m ms]; [|done].
    assert (w ∈ []) as Hin by (apply Hmem; done). by inversion Hin.
  - intros Hin. apply Hmem in Hin as [Hstart _]. discriminate Hstart.
  - intros Hnone. rewrite Hrun.
    destruct matches as [|m ms]; [done|].
    assert (m ∈ m :: ms) as Hin by left.
    apply Hmem in Hin as [Hstart Hv]. by rewrite Hnone in Hstart.
Qed.

End Session.

(** ** The properties on the two-room engine *)

Section ToyRuns.
Import Toy.

Lemma history_holds_last_50_witness :
  let run := play (H := quiet) sixty_actions start in
  init (H := quiet) "toy" = Return start
  /\ run = (Return (returned [] run.1), run.2)
  /\ length (returned [] run.1) = length sixty_actions
  /\ history run.2
     = drop (length sixty_actions - 50) (zip sixty_actions (returned [] run.1))
  /\ length (history run.2) = min (length sixty_actions) 50.
Proof.
  intros run.
  assert (Hinit : init (H := quiet) "toy" = Return start)
    by (vm_compute; reflexivity).
  assert (Hrun : run = (Return (returned [] run.1), run.2))
    by (vm_compute; reflexivity).
  split; [exact Hinit|]. split; [exact Hrun|].
  exact (history_holds_last_50 (H := quiet) "toy" start run.2
           sixty_actions (returned [] run.1) Hinit Hrun).
Defined.

Example history_after_sixty :
  length (history (play (H := quiet) sixty_actions start).2) = 50
  /\ head (history (play (H := quiet) sixty_actions start).2)
     = Some ("south", room_text 0)
  /\ last (history (play (H := quiet) sixty_actions start).2)
     = Some ("take lamp", room_text 0).
Proof. repeat split; vm_compute; reflexivity. Qed.

Lemma exploration_edges_witness :
  run_op (H := quiet) (TakeAction "north") start = (Return (room_text 1), in_hall)
  /\ has_edge in_hall "Kitchen" "north -> Hall".
Proof.
  assert (Hrun : run_op (H := quiet) (TakeAction "north") start
                 = (Return (room_text 1), in_hall))
    by (vm_compute; reflexivity).
  split; [exact Hrun|].
  destruct (exploration_edges (H := quiet) (TakeAction "north") start in_hall
              (Return (room_text 1)) Hrun) as [_ Hinsert].
  destruct (Hinsert "north" (room_text 1) eq_refl eq_refl) as [Hiff _].
  apply Hiff. right. repeat split.
  - repeat constructor.
  - vm_compute. discriminate.
Defined.

Example get_map_after_failed_move :
  (get_map (take_action (H := quiet) "south" start).2).1
  = Return ("Explored Locations and Exits:" +:+ PyStr.nl
            +:+ PyStr.nl +:+ "* Kitchen" +:+ PyStr.nl
            +:+ PyStr.nl +:+ "[Current] Kitchen").
Proof. vm_compute. reflexivity. Qed.

Example get_memory_after_north :
  (get_memory in_hall).1
  = Return ("Current State:" +:+ PyStr.nl
            +:+ "    - Location: Hall" +:+ PyStr.nl
            +:+ "    - Score: 10 points" +:+ PyStr.nl
            +:+ "    - Moves: 1" +:+ PyStr.nl
            +:+ "    - Game: toy" +:+ PyStr.nl
            +:+ PyStr.nl
            +:+ "    Recent Actions:" +:+ PyStr.nl
            +:+ "      > north -> Hall" +:+ PyStr.nl
            +:+ "A long hall. The kitchen is south...." +:+ PyStr.nl
            +:+ PyStr.nl
            +:+ "    Current Observation:" +:+ PyStr.nl
            +:+ "    Hall" +:+ PyStr.nl
            +:+ "A long hall. The kitchen is south.").
Proof. vm_compute. reflexivity. Qed.

Example get_map_fresh : (get_map start).1 = Return no_locations_message.
Proof. vm_compute. reflexivity. Qed.

Example get_map_after_walk :
  (get_map (play (H := quiet) ["north"; "look"; "south"; "n"] start).2).1
  = Return ("Explored Locations and Exits:" +:+ PyStr.nl
            +:+ PyStr.nl +:+ "* Hall" +:+ PyStr.nl
            +:+ "    -> south -> Kitchen" +:+ PyStr.nl
            +:+ PyStr.nl +:+ "* Kitchen" +:+ PyStr.nl
            +:+ "    -> n -> Hall" +:+ PyStr.nl
            +:+ "    -> north -> Hall" +:+ PyStr.nl
            +:+ PyStr.nl +:+ "[Current] Hall").
Proof. vm_compute. reflexivity. Qed.

Lemma step_failure_handling_witness :
  step (Engine := brittle) (env saved) "look" = (Raise crash, kitchen)
  /\ take_action (H := brittle) "look" saved
     = (Raise crash, set_env (H := brittle) kitchen saved)
  /\ saved_states saved !! "a" = Some kitchen
  /\ set_state (Engine := brittle) (env saved) kitchen = (Return tt, kitchen)
  /\ load_game (H := brittle) "a" saved
     = (Return (load_failed "a" crash), set_env (H := brittle) kitchen saved).
Proof.
  assert (Hstep : step (Engine := brittle) (env saved) "look" = (Raise crash, kitchen))
    by (vm_compute; reflexivity).
  assert (Hslot : saved_states saved !! "a" = Some kitchen)
    by (vm_compute; reflexivity).
  assert (Hset : set_state (Engine := brittle) (env saved) kitchen
                 = (Return tt, kitchen))
    by (vm_compute; reflexivity).
  destruct (step_failure_handling (H := brittle) saved crash kitchen)
    as [Htake Hload].
  split; [exact Hstep|]. split; [exact (Htake "look" Hstep)|].
  split; [exact Hslot|]. split; [exact Hset|].
  exact (Hload "a" kitchen kitchen Hslot Hset Hstep).
Defined.

(** C6 (as stated) fails for [load_game]: the restore succeeds, the
    synchronizing [look] raises, and the caller gets a text, not the
    exception. *)
Lemma load_step_failure_is_returned :
  saved_states saved !! "a" = Some kitchen
  /\ set_state (Engine := brittle) (env saved) kitchen = (Return tt, kitchen)
  /\ step (Engine := brittle) kitchen "look" = (Raise crash, kitchen)
  /\ (load_game (H := brittle) "a" saved).1
     = Return "Error loading game from slot 'a': engine crashed"
  /\ (load_game (H := brittle) "a" saved).1 <> Raise crash.
Proof. repeat split; vm_compute; congruence. Qed.

Lemma load_missing_slot_witness :
  saved_states start !! "missing" = None
  /\ load_game (H := quiet) "missing" start
     = (Return "Error: No save found in slot 'missing'", start).
Proof.
  assert (Hslot : saved_states start !! "missing" = None)
    by (vm_compute; reflexivity).
  split; [exact Hslot|].
  exact (load_missing_slot (H := quiet) "missing" start Hslot).
Defined.

Lemma in_hall_reachable : reachable in_hall.
Proof.
  eapply reachable_op with (o := TakeAction "north");
    [apply (reachable_init "toy")|]; vm_compute; reflexivity.
Qed.


Lemma check_vocabulary_xyzzyqq_witness :
  get_dictionary (Engine := engine words3 false) (env (fresh words3 false))
  = (Return words3, env (fresh words3 false))
  /\ (check_vocabulary (H := engine words3 false) "xyzzyqq" (fresh words3 false)).1
     = Return "Yes, the game understands 'xyzzyqq' (matches: xyzzyq).".
Proof.
  assert (Hdict : get_dictionary (Engine := engine words3 false)
                    (env (fresh words3 false))
                  = (Return words3, env (fresh words3 false)))
    by (vm_compute; reflexivity).
  split; [exact Hdict|].
  destruct (check_vocabulary_xyzzyqq (H := engine words3 false)
              (fresh words3 false) words3 (env (fresh words3 false)) Hdict)
    as [Hyes _].
  rewrite Hyes; [vm_compute; reflexivity|].
  exists "xyzzyq". split; [repeat constructor|reflexivity].
Defined.

(** C5 (as stated) fails: with ["xyzzy"] in the dictionary the report for
    ["xyzzyqq"] is the negative one. *)
Lemma check_vocabulary_xyzzyqq_negative :
  let self := fresh ["xyzzy"] false in
  get_dictionary (Engine := engine ["xyzzy"] false) (env self)
  = (Return ["xyzzy"], env self)
  /\ (check_vocabulary (H := engine ["xyzzy"] false) "xyzzyqq" self).1
     = Return (vocabulary_no "xyzzyqq")
  /\ (check_vocabulary (H := engine ["xyzzy"] false) "xyzzyqq" self).1
     <> Return (vocabulary_yes "xyzzyqq" ["xyzzy"]).
Proof. repeat split; vm_compute; congruence. Qed.

End ToyRuns.

(** * Further properties of the code *)

(** ** Trimming, and the shape of locations and display names *)

Section TrimFacts.
Import PyStr.

Lemma rstrip_empty_iff s : rstrip s = "" <-> all_space s = true.
Proof.
  destruct s as [|c s]; cbn [rstrip]; [done|].
  destruct (all_space (String c s)); split; done.
Qed.

Lemma lstrip_all_space s : all_space (lstrip s) = all_space s.
Proof.
  induction s as [|c s IH]; [done|]. cbn [lstrip all_space].
  destruct (isspace c) eqn:Hc; [done|]. cbn [all_space]. by rewrite Hc.
Qed.

Lemma lstrip_idemp s : lstrip (lstrip s) = lstrip s.
Proof.
  induction s as [|c s IH]; [done|]. cbn [lstrip].
  destruct (isspace c) eqn:Hc; [done|]. cbn [lstrip]. by rewrite Hc.
Qed.

Lemma rstrip_not_all_space s : all_space s = false -> all_space (rstrip s) = false.
Proof.
  induction s as [|c s IH]; [done|]. intros Hs. cbn [rstrip]. rewrite Hs.
  cbn [all_space] in *. destruct (isspace c); [|done]. by apply IH.
Qed.

Lemma rstrip_idemp s : rstrip (rstrip s) = rstrip s.
Proof.
  induction s as [|c s IH]; [done|]. cbn [rstrip].
  destruct (all_space (String c s)) eqn:Hs; [done|].
  cbn [rstrip]. rewrite IH.
  assert (all_space (String c (rstrip s)) = false) as ->; [|done].
  cbn [all_space] in *. destruct (isspace c); [|done].
  by apply rstrip_not_all_space.
Qed.

Lemma lstrip_rstrip s : lstrip (rstrip s) = rstrip (lstrip s).
Proof.
  induction s as [|c s IH]; [done|]. cbn [rstrip lstrip].
  destruct (isspace c) eqn:Hc.
  - destruct (all_space (String c s)) eqn:Hs.
    + cbn [lstrip]. symmetry. apply rstrip_empty_iff.
      rewrite lstrip_all_space. cbn [all_space] in Hs. by rewrite Hc in Hs.
    + cbn [lstrip]. by rewrite Hc.
  - assert (all_space (String c s) = false) as Hs by (cbn; by rewrite Hc).
    rewrite Hs. cbn [lstrip rstrip]. by rewrite Hc, Hs.
Qed.

Lemma strip_idemp s : strip (strip s) = strip s.
Proof.
  unfold strip. by rewrite lstrip_rstrip, lstrip_idemp, rstrip_idemp.
Qed.

Lemma strip_rstrip s : strip (rstrip s) = strip s.
Proof. unfold strip. by rewrite lstrip_rstrip, rstrip_idemp. Qed.

(** A trimmed text is empty or begins with a character that is no
    whitespace. *)
Lemma strip_head s :
  strip s = "" \/ exists c r, strip s = String c r /\ isspace c = false.
Proof.
  unfold strip. rewrite <- lstrip_rstrip.
  induction (rstrip s) as [|c r IH]; [by left|]. cbn [lstrip].
  destruct (isspace c) eqn:Hc; [done|]. right. by eauto.
Qed.

Lemma first_line_cons c s :
  first_line (String c s) = if Ascii.eqb c LF then "" else String c (first_line s).
Proof.
  unfold first_line. cbn [split].
  destruct (Ascii.eqb c LF); [done|].
  by destruct (split_cons_inv LF s) as [h [t ->]].
Qed.

Lemma first_line_no_LF s : find nl (first_line s) = None.
Proof.
  induction s as [|c s IH]; [done|]. rewrite first_line_cons.
  destruct (Ascii.eqb c LF) eqn:Hc; [done|].
  unfold nl. rewrite find_sep_cons, Hc. fold nl. by rewrite IH.
Qed.

End TrimFacts.

(** X1: the derived location never contains a line feed and never begins
    with whitespace, and it is the empty string exactly when the observation
    is all whitespace (the ["Unknown"] fallback is never taken for a blank
    observation). *)
Theorem extract_location_shape (observation : string) :
  PyStr.contains PyStr.nl (_extract_location observation) = false
  /\ PyStr.lstrip (_extract_location observation) = _extract_location observation
  /\ (_extract_location observation = "" <-> PyStr.all_space observation = true).
Proof.
  rewrite extract_location_first_line. split; [|split].
  - unfold PyStr.contains. rewrite first_line_no_LF.
    apply bool_decide_eq_false. by intros [? ?].
  - destruct (strip_head observation) as [->|(c & r & -> & Hc)]; [done|].
    rewrite first_line_cons.
    destruct (Ascii.eqb c PyStr.LF) eqn:Hlf; [done|].
    cbn [PyStr.lstrip]. by rewrite Hc.
  - assert (Hstrip : PyStr.strip observation = ""
                     <-> PyStr.all_space observation = true).
    { unfold PyStr.strip. by rewrite rstrip_empty_iff, lstrip_all_space. }
    rewrite <- Hstrip.
    destruct (strip_head observation) as [->|(c & r & -> & Hc)]; [done|].
    rewrite first_line_cons.
    destruct (Ascii.eqb c PyStr.LF) eqn:Hlf; [|done].
    apply Ascii.eqb_eq in Hlf as ->. by rewrite isspace_LF in Hc.
Qed.

(** X2: when the descriptor contains a colon or, in any letter case,
    ["parent"], the display name carries no leading or trailing whitespace;
    a descriptor with neither is returned as it is, untrimmed. *)
Theorem item_name_trimmed (item_str name : string) :
  item_name item_str = Return name ->
  (PyStr.contains "parent" (PyStr.lower item_str) = true
   \/ PyStr.contains ":" item_str = true -> PyStr.strip name = name)
  /\ (PyStr.contains "parent" (PyStr.lower item_str) = false ->
      PyStr.contains ":" item_str = false -> name = item_str).
Proof.
  unfold item_name. intros Hname.
  destruct (PyStr.contains "parent" (PyStr.lower item_str)) eqn:Hp.
  - split; [intros _|done].
    repeat case_match; simplify_eq; apply strip_idemp.
  - destruct (PyStr.contains ":" item_str) eqn:Hc.
    + split; [intros _|done].
      repeat case_match; simplify_eq; apply strip_idemp.
    + simplify_eq. split; [by intros [?|?]|done].
Qed.

Lemma item_name_trimmed_witness :
  item_name "  sword : rusty  " = Return "rusty"
  /\ PyStr.contains ":" "  sword : rusty  " = true
  /\ PyStr.strip "rusty" = "rusty".
Proof.
  assert (Hname : item_name "  sword : rusty  " = Return "rusty") by reflexivity.
  assert (Hcolon : PyStr.contains ":" "  sword : rusty  " = true) by reflexivity.
  split; [exact Hname|]. split; [exact Hcolon|].
  exact (proj1 (item_name_trimmed "  sword : rusty  " "rusty" Hname)
           (or_intror Hcolon)).
Defined.

Example item_name_verbatim : item_name "  a sword  " = Return "  a sword  ".
Proof. reflexivity. Qed.

Section AppendFacts.
Import PyStr.

Lemma append_cons c a b : String c a +:+ b = String c (a +:+ b).
Proof. reflexivity. Qed.

Lemma append_assoc a b c : (a +:+ b) +:+ c = a +:+ b +:+ c.
Proof. induction a as [|x a IH]; [done|]. by rewrite !append_cons, IH. Qed.

Lemma append_empty_r a : a +:+ "" = a.
Proof. induction a as [|x a IH]; [done|]. by rewrite append_cons, IH. Qed.

Lemma take_append_length a b : take (String.length a) (a +:+ b) = a.
Proof.
  induction a as [|x a IH]; [by destruct b|].
  rewrite append_cons. cbn [String.length take]. by rewrite IH.
Qed.

Lemma all_space_append_nonspace a c b :
  isspace c = false -> all_space (a +:+ String c b) = false.
Proof.
  intros Hc. induction a as [|x a IH].
  - change ("" +:+ String c b) with (String c b). cbn [all_space]. by rewrite Hc.
  - rewrite append_cons. cbn [all_space]. rewrite IH. by destruct (isspace x).
Qed.

Lemma lstrip_append_nonspace a c b :
  isspace c = false -> lstrip (a +:+ String c b) = lstrip a +:+ String c b.
Proof.
  intros Hc. induction a as [|x a IH].
  - change ("" +:+ String c b) with (String c b). cbn [lstrip]. by rewrite Hc.
  - rewrite append_cons. cbn [lstrip]. by destruct (isspace x).
Qed.

Lemma rstrip_append_nonspace a c b :
  isspace c = false -> rstrip (a +:+ String c b) = a +:+ String c (rstrip b).
Proof.
  intros Hc. induction a as [|x a IH].
  - change ("" +:+ String c b) with (String c b).
    cbn [rstrip all_space]. by rewrite Hc.
  - rewrite !append_cons. cbn [rstrip].
    rewrite <- append_cons, all_space_append_nonspace by done. by rewrite IH.
Qed.

Lemma find_sep_append sep a b :
  is_Some (find (String sep "") (a +:+ String sep b)).
Proof.
  induction a as [|x a [i IH]].
  - change ("" +:+ String sep b) with (String sep b).
    rewrite find_sep_cons, Ascii.eqb_refl. by eauto.
  - rewrite append_cons, find_sep_cons. destruct (Ascii.eqb x sep); [by eauto|].
    rewrite IH. by eauto.
Qed.

Lemma split_max_first_sep sep a b :
  find (String sep "") a = None ->
  split_max sep 1 (a +:+ String sep b) = [a; b].
Proof.
  induction a as [|x a IH]; intros Hnone.
  - change ("" +:+ String sep b) with (String sep b).
    cbn [split_max]. rewrite Ascii.eqb_refl. by destruct b.
  - rewrite find_sep_cons in Hnone. rewrite append_cons. cbn [split_max].
    destruct (Ascii.eqb x sep); [done|].
    destruct (find (String sep "") a); [done|]. by rewrite IH.
Qed.

Lemma find_sep_lstrip sep a :
  find (String sep "") a = None -> find (String sep "") (lstrip a) = None.
Proof.
  induction a as [|x a IH]; [done|]. intros Hnone. cbn [lstrip].
  destruct (isspace x); [|done]. apply IH.
  rewrite find_sep_cons in Hnone. destruct (Ascii.eqb x sep); [done|].
  by destruct (find (String sep "") a).
Qed.

End AppendFacts.

(** X3: for a descriptor made of a tag without a colon, a colon, a name and
    a rest, the display name is the trimmed name whenever the first
    ["parent"] of the lower-cased descriptor stands at the index
    [len(tag) + 1 + len(name)], the index at which the rest begins in the
    descriptor itself.  (The index is taken in the lower-cased text and used
    to cut the descriptor; the statement asks for the two to agree and does
    not rest on how lower-casing treats the text before it.) *)
Theorem item_name_tagged_descriptor (tag name rest : string) :
  PyStr.contains ":" tag = false ->
  PyStr.find "parent" (PyStr.lower (tag +:+ ":" +:+ name +:+ rest))
  = Some (String.length (tag +:+ ":" +:+ name)) ->
  item_name (tag +:+ ":" +:+ name +:+ rest) = Return (PyStr.strip name).
Proof.
  intros Htag Hfind. unfold item_name.
  assert (Hcolon : PyStr.isspace ":" = false) by reflexivity.
  assert (Hnone : PyStr.find ":" tag = None).
  { apply bool_decide_eq_false in Htag.
    destruct (PyStr.find ":" tag) eqn:Hf; [|done]. destruct Htag. by eauto. }
  rewrite (proj2 (contains_true _ _)) by (rewrite Hfind; eauto).
  unfold str_index. rewrite Hfind.
  assert (Hparts : tag +:+ ":" +:+ name +:+ rest = (tag +:+ ":" +:+ name) +:+ rest)
    by by rewrite !append_assoc.
  rewrite Hparts, take_append_length.
  change (tag +:+ ":" +:+ name) with (tag +:+ String ":" name).
  unfold PyStr.strip at 1 2.
  rewrite lstrip_append_nonspace, rstrip_append_nonspace by done.
  rewrite (proj2 (contains_true _ _)) by apply find_sep_append.
  rewrite split_max_first_sep by by apply find_sep_lstrip.
  cbn [getitem lookup list_lookup]. by rewrite strip_rstrip.
Qed.

Lemma item_name_tagged_descriptor_witness :
  let rest := "Parent4 Sibling13 Child0 Attributes [] Properties []" in
  PyStr.contains ":" "Obj12" = false
  /\ PyStr.find "parent" (PyStr.lower ("Obj12" +:+ ":" +:+ " brass lantern " +:+ rest))
     = Some (String.length ("Obj12" +:+ ":" +:+ " brass lantern "))
  /\ item_name ("Obj12" +:+ ":" +:+ " brass lantern " +:+ rest)
     = Return "brass lantern".
Proof.
  intros rest.
  assert (Htag : PyStr.contains ":" "Obj12" = false) by reflexivity.
  assert (Hfind : PyStr.find "parent"
                    (PyStr.lower ("Obj12" +:+ ":" +:+ " brass lantern " +:+ rest))
                  = Some (String.length ("Obj12" +:+ ":" +:+ " brass lantern ")))
    by reflexivity.
  split; [exact Htag|]. split; [exact Hfind|].
  exact (item_name_tagged_descriptor "Obj12" " brass lantern " rest Htag Hfind).
Defined.

(** ** Queries, failures and invariants of the session *)

Section SessionLaws.
Context `{Engine}.
Implicit Types (self : GameState _) (action slot_name word : string).

Ltac unfold_ops :=
  unfold run_op, get_memory, get_map, get_inventory, get_valid_actions,
    check_vocabulary, save_game, load_game, try_except, bind, call_env,
    gets, modify, ret, raise in *.

Ltac run_ops_tac :=
  unfold_ops;
  repeat (cbn -[_extract_location PyStr.join PyStr.lower PyStr.take] in *;
          case_match; simplify_eq);
  cbn -[_extract_location PyStr.join PyStr.lower PyStr.take] in *.

Lemma get_inventory_returns self :
  exists text, get_inventory self = (Return text, self).
Proof.
  unfold get_inventory, bind, gets, ret, raise. cbn -[item_names].
  destruct (inventory (state self)) as [|item rest] eqn:Hitems; [by eauto|].
  destruct (item_names_total (item :: rest)) as [names ->]. by eauto.
Qed.

(** X4: [get_memory], [get_map] and [get_inventory] always return a text,
    never raise, and leave the session, the engine included, exactly as it
    was. *)
Theorem read_only_queries (self : GameState _) :
  (exists text, get_memory self = (Return text, self))
  /\ (exists text, get_map self = (Return text, self))
  /\ (exists text, get_inventory self = (Return text, self)).
Proof.
  split; [|split].
  - unfold get_memory, bind, gets, ret. cbn. by eauto.
  - unfold get_map, bind, gets, ret. cbn. case_bool_decide; by eauto.
  - apply get_inventory_returns.
Qed.

(** X5: [take_action] is the only operation that lets an instance of
    [Exception] reach the caller, and then it is the exception the engine's
    step raised; every other operation answers a failing engine with a
    text. *)
Theorem only_take_action_raises_exception (o : op) (self self' : GameState _)
    (x : exn) :
  run_op o self = (Raise x, self') ->
  is_Exception x = true ->
  exists action e',
    o = TakeAction action /\ step (env self) action = (Raise x, e').
Proof.
  intros Hrun Hexc. destruct o.
  - cbn in Hrun. destruct (step (env self) action) as [[t|x'] e'] eqn:Hstep.
    + destruct (take_action_returns _ _ _ _ Hstep) as (s1 & Hs1 & _).
      rewrite Hs1 in Hrun. done.
    + rewrite (take_action_raises _ _ _ _ Hstep) in Hrun. simplify_eq.
      by eauto.
  - run_ops_tac.
  - run_ops_tac.
  - change (run_op GetInventory self) with (get_inventory self) in Hrun.
    destruct (get_inventory_returns self) as [text Htext].
    rewrite Htext in Hrun. done.
  - run_ops_tac; congruence.
  - run_ops_tac; congruence.
  - run_ops_tac; congruence.
  - run_ops_tac; congruence.
Qed.

(** X6: when the engine call behind [get_valid_actions], [check_vocabulary]
    or [save_game] raises an instance of [Exception], or the restore of
    [load_game] does, the method returns its error text with the message of
    the exception; nothing but the engine has changed, so a failed save
    stores no slot and a failed restore keeps the cached transition. *)
Theorem engine_failure_reports (self : GameState _) (x : exn) (e' : env_t) :
  is_Exception x = true ->
  (env_get_valid_actions (env self) = (Raise x, e') ->
   get_valid_actions self
   = (Return ("Could not retrieve valid actions: " +:+ str_exn x), set_env e' self))
  /\ (get_dictionary (env self) = (Raise x, e') ->
      forall word,
        check_vocabulary word self
        = (Return ("Could not check vocabulary: " +:+ str_exn x), set_env e' self))
  /\ (get_state (env self) = (Raise x, e') ->
      forall slot_name,
        save_game slot_name self
        = (Return ("Error saving game to slot '" +:+ slot_name +:+ "': " +:+ str_exn x),
           set_env e' self))
  /\ (forall slot_name snap,
        saved_states self !! slot_name = Some snap ->
        set_state (env self) snap = (Raise x, e') ->
        load_game slot_name self
        = (Return ("Error loading game from slot '" +:+ slot_name +:+ "': " +:+ str_exn x),
           set_env e' self)).
Proof.
  intros Hexc. repeat split.
  - intros Hcall. unfold get_valid_actions, try_except, bind, call_env, ret.
    by rewrite Hcall, Hexc.
  - intros Hcall word. unfold check_vocabulary, try_except, bind, call_env, ret.
    by rewrite Hcall, Hexc.
  - intros Hcall slot_name. unfold save_game, try_except, bind, call_env, ret.
    by rewrite Hcall, Hexc.
  - intros slot_name snap Hslot Hcall.
    unfold load_game, try_except, bind, call_env, gets, ret.
    rewrite Hslot, Hcall. cbn. by rewrite Hexc.
Qed.

Lemma last_last_n {A} n (l : list A) x :
  0 < n -> last (last_n n (l ++ [x])) = Some x.
Proof.
  intros Hn. unfold last_n. rewrite last_lookup, lookup_drop, length_drop.
  rewrite length_app. cbn [length].
  replace (length l + 1 - n + pred (length l + 1 - (length l + 1 - n)))
    with (length l) by lia.
  by rewrite lookup_app_r, Nat.sub_diag by lia.
Qed.

(** X7: a [take_action] that returns leaves its (action, result) pair as
    the newest history entry, caches the transition whose observation is
    the result, derives the current location from that result, and touches
    neither the save slots nor the game name. *)
Theorem take_action_records_step (action result : string) (self self' : GameState _) :
  take_action action self = (Return result, self') ->
  last (history self') = Some (action, result)
  /\ observation (state self') = result
  /\ current_location self' = _extract_location result
  /\ saved_states self' = saved_states self
  /\ game_name self' = game_name self.
Proof.
  intros Hrun. destruct (step (env self) action) as [[t|x] e'] eqn:Hstep.
  - destruct (take_action_returns _ _ _ _ Hstep)
      as (s1 & Hs1 & _ & Hst & Hgame & Hslots & Hh & Hloc & _).
    rewrite Hs1 in Hrun. simplify_eq.
    repeat split; try done. rewrite Hh. apply last_last_n. lia.
  - rewrite (take_action_raises _ _ _ _ Hstep) in Hrun. by simplify_eq.
Qed.

(** X8: in every session reached from a fresh one, by any operations,
    returning or raising, the history holds at most 50 entries. *)
Theorem reachable_history_bounded (self : GameState _) :
  reachable self -> length (history self) <= 50.
Proof.
  induction 1 as [game self Hinit|self o r self' _ IH Hrun].
  - unfold init in Hinit. repeat case_match; simplify_eq. cbn. lia.
  - destruct o.
    2-8: (edestruct other_ops_frame as (_ & Hh & _); [|exact Hrun|]; [done|];
          by rewrite Hh).
    cbn in Hrun. destruct (step (env self) action) as [[t|x] e'] eqn:Hstep.
    + destruct (take_action_returns _ _ _ _ Hstep)
        as (s1 & Hs1 & _ & _ & _ & _ & Hh & _).
      rewrite Hs1 in Hrun. simplify_eq. rewrite Hh, last_n_length. lia.
    + rewrite (take_action_raises _ _ _ _ Hstep) in Hrun. by simplify_eq.
Qed.

Lemma take_action_edges action result self self' loc e :
  take_action action self = (Return result, self') ->
  has_edge self' loc e ->
  has_edge self loc e
  \/ (action ∈ movement_actions
      /\ _extract_location result <> current_location self
      /\ loc = current_location self
      /\ e = edge_text action (_extract_location result)).
Proof.
  intros Hrun.
  destruct (take_action_inv _ _ _ _ Hrun) as (t & e' & _ & _ & _ & _ & Hex).
  cbn zeta in Hex. unfold has_edge. rewrite Hex. clear Hex Hrun.
  unfold is_movement. case_bool_decide as Hmv; [|tauto].
  case_bool_decide as Hsame; case_bool_decide as Hdom.
  - tauto.
  - apply not_elem_of_dom in Hdom. rewrite edge_insert_empty by done. tauto.
  - rewrite edge_insert_add. tauto.
  - apply not_elem_of_dom in Hdom.
    rewrite edge_insert_add, edge_insert_empty by done. tauto.
Qed.

(** X9: in every session reached from a fresh one, each edge of the
    exploration graph reads ["<action> -> <destination>"] for one of the
    movement actions and a destination that differs from the location the
    edge is filed under: the graph holds no self-loop. *)
Theorem reachable_edges_well_formed (self : GameState _) (loc e : string) :
  reachable self ->
  has_edge self loc e ->
  exists action destination,
    action ∈ movement_actions /\ destination <> loc
    /\ e = action +:+ " -> " +:+ destination.
Proof.
  intros Hreach. revert loc e.
  induction Hreach as [game self Hinit|self o r self' _ IH Hrun]; intros loc e.
  - unfold init in Hinit. repeat case_match; simplify_eq.
    intros (exits & Hl & _). cbn in Hl. by rewrite lookup_empty in Hl.
  - destruct o.
    2-8: (edestruct other_ops_frame as (Hex & _); [|exact Hrun|]; [done|];
          unfold has_edge in *; rewrite Hex; by apply IH).
    cbn in Hrun. destruct r as [result|x].
    + intros Hedge.
      destruct (take_action_edges _ _ _ _ _ _ Hrun Hedge)
        as [Hold|(Hmv & Hne & -> & ->)]; [by apply IH|].
      by exists action, (_extract_location result).
    + destruct (step (env self) action) as [[t|x'] e'] eqn:Hstep.
      * destruct (take_action_returns _ _ _ _ Hstep) as (s1 & Hs1 & _).
        rewrite Hs1 in Hrun. done.
      * rewrite (take_action_raises _ _ _ _ Hstep) in Hrun. simplify_eq.
        apply IH.
Qed.

Lemma slot_frame (o : op) self r self' slot_name :
  run_op o self = (r, self') ->
  o <> SaveGame slot_name ->
  saved_states self' !! slot_name = saved_states self !! slot_name.
Proof.
  intros Hrun Hne. destruct o.
  - cbn in Hrun. destruct (step (env self) action) as [[t|x] e'] eqn:Hstep.
    + destruct (take_action_returns _ _ _ _ Hstep)
        as (s1 & Hs1 & _ & _ & _ & Hslots & _).
      rewrite Hs1 in Hrun. simplify_eq. by rewrite Hslots.
    + rewrite (take_action_raises _ _ _ _ Hstep) in Hrun. by simplify_eq.
  - run_ops_tac; done.
  - run_ops_tac; done.
  - run_ops_tac; done.
  - run_ops_tac; done.
  - run_ops_tac; done.
  - assert (slot_name0 <> slot_name) by congruence.
    run_ops_tac; by rewrite ?lookup_insert_ne.
  - run_ops_tac; done.
Qed.

Lemma run_ops_slot_frame (os : list op) slot_name : forall self,
  SaveGame slot_name ∉ os ->
  saved_states (run_ops os self) !! slot_name = saved_states self !! slot_name.
Proof.
  induction os as [|o os IH]; intros self Hnot; [done|].
  cbn [run_ops]. rewrite IH by (intros Hin; apply Hnot; by right).
  destruct (run_op o self) as [r s1] eqn:Hrun.
  eapply slot_frame; [exact Hrun|]. intros ->. apply Hnot. by left.
Qed.

(** X10: a snapshot saved to a slot, over whatever the slot held, is still
    in the slot after any later operations that do not save to that name;
    [load_game] then hands this snapshot to the engine and, when the restore
    and the [look] return, confirms with the refreshed observation, caches
    the new transition and location, and leaves history and exploration
    graph as they were. *)
Theorem checkpoint_survives_play (slot_name : string) (snap : snapshot)
    (e1 : env_t) (os : list op) (self : GameState _) :
  get_state (env self) = (Return snap, e1) ->
  SaveGame slot_name ∉ os ->
  let later := run_ops os (save_game slot_name self).2 in
  saved_states later !! slot_name = Some snap
  /\ forall e2 t e3,
       set_state (env later) snap = (Return tt, e2) ->
       step e2 "look" = (Return t, e3) ->
       exists restored,
         load_game slot_name later
         = (Return ("Game loaded from slot: '" +:+ slot_name +:+ "'." +:+ PyStr.nl
                    +:+ "Current location: " +:+ observation t), restored)
         /\ env restored = e3 /\ state restored = t
         /\ current_location restored = _extract_location (observation t)
         /\ history restored = history later
         /\ explored_locations restored = explored_locations later.
Proof.
  intros Hget Hnot later.
  assert (Hslot : saved_states later !! slot_name = Some snap).
  { unfold later. rewrite run_ops_slot_frame by done.
    unfold save_game, try_except, bind, call_env, gets, modify, ret.
    rewrite Hget. cbn -[lookup insert]. apply lookup_insert_eq. }
  split; [done|]. intros e2 t e3 Hset Hlook.
  unfold load_game, try_except, bind, call_env, gets, modify, ret.
  rewrite Hslot, Hset. cbn -[_extract_location]. rewrite Hlook.
  eexists. repeat split; done.
Qed.

(** X11: [check_vocabulary] looks only at the first six characters of the
    word, without regard to letter case: two words that agree there get the
    same verdict and the same matches, which are the dictionary tokens that
    start with these characters, in dictionary order. *)
Theorem check_vocabulary_six_chars (self : GameState _) (vocab : list string)
    (e' : env_t) (word1 word2 : string) :
  get_dictionary (env self) = (Return vocab, e') ->
  PyStr.take 6 (PyStr.lower word1) = PyStr.take 6 (PyStr.lower word2) ->
  exists matches,
    check_vocabulary word1 self
    = (Return (vocabulary_report word1 matches), set_env e' self)
    /\ check_vocabulary word2 self
       = (Return (vocabulary_report word2 matches), set_env e' self)
    /\ matches
       = filter (fun w => PyStr.startswith (PyStr.take 6 (PyStr.lower word1)) w) vocab
    /\ (forall w, w ∈ matches
                  <-> w ∈ vocab
                      /\ PyStr.startswith (PyStr.take 6 (PyStr.lower word1)) w = true).
Proof.
  intros Hdict Hsame.
  exists (filter (fun w => PyStr.startswith (PyStr.take 6 (PyStr.lower word1)) w) vocab).
  split; [|split; [|split; [done|]]].
  - unfold check_vocabulary, try_except, bind, call_env, ret. rewrite Hdict.
    by destruct (filter _ vocab).
  - unfold check_vocabulary, try_except, bind, call_env, ret. rewrite Hdict.
    rewrite <- Hsame. by destruct (filter _ vocab).
  - intros w. rewrite list_elem_of_filter, Is_true_true. tauto.
Qed.

Lemma filter_startswith_empty (vocab : list string) :
  filter (fun w => PyStr.startswith "" w) vocab = vocab.
Proof.
  induction vocab as [|w vocab IH]; [done|].
  rewrite filter_cons_True by done. by rewrite IH.
Qed.

(** X12: for the empty word every dictionary token is a match: the report
    is positive and lists the whole dictionary, and negative only when the
    dictionary is empty. *)
Theorem check_vocabulary_empty_word (self : GameState _) (vocab : list string)
    (e' : env_t) :
  get_dictionary (env self) = (Return vocab, e') ->
  check_vocabulary "" self = (Return (vocabulary_report "" vocab), set_env e' self).
Proof.
  intros Hdict.
  unfold check_vocabulary, try_except, bind, call_env, ret. rewrite Hdict.
  change (PyStr.take 6 (PyStr.lower "")) with "".
  rewrite filter_startswith_empty. by destruct vocab.
Qed.

(** A fresh session has an empty history, no explored location and no
    save slot: [get_map] gives the fixed message and [load_game] reports
    every slot as not found; its location is derived from the observation
    of the reset. *)
Theorem fresh_session_is_blank (game : string) (self : GameState _) :
  init game = Return self ->
  game_name self = game
  /\ history self = []
  /\ current_location self = _extract_location (observation (state self))
  /\ get_map self = (Return no_locations_message, self)
  /\ (forall slot_name,
        load_game slot_name self = (Return (slot_not_found slot_name), self)).
Proof.
  intros Hinit. unfold init in Hinit. repeat case_match; simplify_eq.
  repeat split.
Qed.

Local Instance key_le_total :
  Total (fun x y : string * gset string => String.le x.1 y.1).
Proof. intros x y. apply (total String.le). Qed.

Local Instance key_le_trans :
  Transitive (fun x y : string * gset string => String.le x.1 y.1).
Proof. intros x y z. apply (transitivity (R := String.le)). Qed.

Lemma sorted_items_keys (m : gmap string (gset string)) :
  StronglySorted String.le (sorted_items m).*1 /\ NoDup (sorted_items m).*1.
Proof.
  split.
  - apply (StronglySorted_fmap fst (fun x y => String.le x.1 y.1)); [done|].
    apply (StronglySorted_merge_sort _).
  - unfold sorted_items. rewrite merge_sort_Permutation.
    apply NoDup_fst_map_to_list.
Qed.

Lemma sorted_exits_elem (exits : gset string) e :
  e ∈ sorted_exits exits <-> e ∈ exits.
Proof.
  unfold sorted_exits. by rewrite merge_sort_Permutation, elem_of_elements.
Qed.

(** X13: when some location is explored, [get_map] joins, line by line,
    the header, then for the locations in ascending order, each once, a
    line with the location followed by one line for each of its exits in
    ascending order, and last the current location; every explored location
    and every exit has its line. *)
Theorem get_map_lists_everything (self : GameState _) :
  explored_locations self <> ∅ ->
  get_map self = (Return (PyStr.join PyStr.nl (map_lines self)), self)
  /\ head (map_lines self) = Some map_header
  /\ last (map_lines self)
     = Some (PyStr.nl +:+ "[Current] " +:+ current_location self)
  /\ StronglySorted String.le (sorted_items (explored_locations self)).*1
  /\ NoDup (sorted_items (explored_locations self)).*1
  /\ (forall loc exits,
        explored_locations self !! loc = Some exits ->
        (PyStr.nl +:+ "* " +:+ loc) ∈ map_lines self
        /\ StronglySorted String.le (sorted_exits exits)
        /\ NoDup (sorted_exits exits)
        /\ forall e, e ∈ exits -> ("    -> " +:+ e) ∈ map_lines self).
Proof.
  intros Hne. split; [|split; [|split; [|split; [|split]]]].
  - unfold get_map, bind, gets, ret. cbn -[PyStr.join app].
    by rewrite bool_decide_eq_false_2.
  - done.
  - unfold map_lines. by rewrite app_assoc, last_snoc.
  - apply sorted_items_keys.
  - apply sorted_items_keys.
  - intros loc exits Hloc.
    assert (Hitem : (loc, exits) ∈ sorted_items (explored_locations self)).
    { unfold sorted_items. rewrite merge_sort_Permutation.
      by apply elem_of_map_to_list. }
    assert (Hlines : forall line,
      line ∈ location_lines (loc, exits) -> line ∈ map_lines self).
    { intros line Hline. unfold map_lines.
      apply elem_of_app. right. apply elem_of_app. left.
      apply list_elem_of_In, in_concat. exists (location_lines (loc, exits)).
      split; apply list_elem_of_In; [|done].
      by apply list_elem_of_fmap_2. }
    split; [apply Hlines; by left|]. split; [|split].
    + apply (StronglySorted_merge_sort _).
    + unfold sorted_exits. rewrite merge_sort_Permutation. apply NoDup_elements.
    + intros e He. apply Hlines. right.
      apply list_elem_of_fmap_2. by apply sorted_exits_elem.
Qed.

End SessionLaws.

(** ** The tool layer *)

Section SuffixFacts.

Lemma startswith_append a b : PyStr.startswith a (a +:+ b) = true.
Proof.
  induction a as [|x a IH]; [done|].
  rewrite append_cons. cbn [PyStr.startswith]. by rewrite Ascii.eqb_refl, IH.
Qed.

Lemma endswith_append suffix a : endswith suffix (a +:+ suffix) = true.
Proof.
  induction a as [|x a IH].
  - change ("" +:+ suffix) with suffix.
    destruct suffix; cbn [endswith]; by rewrite bool_decide_eq_true_2.
  - rewrite append_cons. cbn [endswith]. rewrite IH. by case_bool_decide.
Qed.

Lemma endswith_inv suffix s :
  endswith suffix s = true -> exists p, s = p +:+ suffix.
Proof.
  induction s as [|x s IH]; cbn [endswith].
  - case_bool_decide as Heq; [|done]. intros _. exists "". by rewrite <- Heq.
  - case_bool_decide as Heq; [intros _; exists ""; by rewrite <- Heq|].
    intros [p ->]%IH. exists (String x p). by rewrite append_cons.
Qed.

Lemma append_last_inj a b (c d : ascii) :
  a +:+ String c "" = b +:+ String d "" -> c = d.
Proof.
  revert b. induction a as [|x a IH]; intros [|y b] Heq.
  - by injection Heq.
  - rewrite append_cons in Heq. injection Heq as _ Heq.
    by destruct b.
  - rewrite append_cons in Heq. injection Heq as _ Heq.
    by destruct a.
  - rewrite !append_cons in Heq. injection Heq as _ Heq. by eapply IH.
Qed.

Lemma not_endswith_game_over a (c : ascii) :
  c <> "R"%char -> endswith "GAME OVER" (a +:+ String c "") = false.
Proof.
  intros Hc. destruct (endswith _ _) eqn:Hends; [|done].
  apply endswith_inv in Hends as [p Hp].
  change "GAME OVER" with ("GAME OVE" +:+ String "R" "") in Hp.
  rewrite <- append_assoc in Hp. by apply append_last_inj in Hp.
Qed.

End SuffixFacts.

Section ToolLaws.
Context `{Engine}.
Variable INITIAL_GAME : string.
Implicit Types (self : GameState _) (action : string).

(** X14: [play_action] answers a step that returns with the observation
    followed by the score line, and its text ends with the marker
    ["GAME OVER"] exactly when the transition is done; the session it leaves
    is the one [take_action] leaves.  A step that raises makes [play_action]
    raise the same exception. *)
Theorem play_action_response (action : string) (self : GameState _) :
  match step (env self) action with
  | (Return t, _) =>
      exists text,
        Tool.play_action_on action self = (Return text, (take_action action self).2)
        /\ text = observation t +:+ Tool.score_info t +:+ Tool.done_info t
        /\ PyStr.startswith (observation t) text = true
        /\ endswith "GAME OVER" text = done t
  | (Raise x, e') =>
      Tool.play_action_on action self = (Raise x, set_env e' self)
  end.
Proof.
  destruct (step (env self) action) as [[t|x] e'] eqn:Hstep.
  - destruct (take_action_returns _ _ _ _ Hstep) as (s1 & Hs1 & _ & Hst & _).
    eexists. split; [|split; [reflexivity|split]].
    + unfold Tool.play_action_on, bind, gets, ret. rewrite Hs1. cbn.
      by rewrite Hst.
    + apply startswith_append.
    + unfold Tool.done_info. destruct (done t).
      * rewrite <- !append_assoc. apply endswith_append.
      * rewrite append_empty_r. unfold Tool.score_info.
        destruct (0 <? reward t)%Z; rewrite <- !append_assoc;
          by apply not_endswith_game_over.
  - unfold Tool.play_action_on, bind.
    by rewrite (take_action_raises _ _ _ _ Hstep).
Qed.

Lemma play_action_on_session action self :
  (Tool.play_action_on action self).2 = (take_action action self).2.
Proof.
  unfold Tool.play_action_on, bind, gets, ret.
  by destruct (take_action action self) as [[r|x] s1].
Qed.

Lemma call_on_session (o : op) self :
  (Tool.call INITIAL_GAME o (Some self)).2 = Some (run_op o self).2.
Proof.
  destruct o; cbn -[take_action get_memory get_map get_inventory
    get_valid_actions check_vocabulary save_game load_game Tool.play_action_on].
  - rewrite <- play_action_on_session.
    by destruct (Tool.play_action_on _ _).
  - by destruct (get_memory _).
  - by destruct (get_map _).
  - by destruct (get_inventory _).
  - by destruct (get_valid_actions _).
  - by destruct (check_vocabulary _ _).
  - by destruct (save_game _ _).
  - by destruct (load_game _ _).
Qed.

Lemma calls_on_session (os : list op) : forall self,
  Tool.calls INITIAL_GAME os (Some self) = Some (run_ops os self).
Proof.
  induction os as [|o os IH]; intros self; [done|].
  cbn [Tool.calls run_ops]. by rewrite call_on_session, IH.
Qed.

Lemma call_builds_session (o : op) self0 :
  init INITIAL_GAME = Return self0 ->
  Tool.call INITIAL_GAME o None = Tool.call INITIAL_GAME o (Some self0).
Proof.
  intros Hinit.
  destruct o; unfold Tool.call, Tool.play_action, Tool.memory, Tool.get_map,
    Tool.inventory, Tool.valid_actions, Tool.check_vocabulary, Tool.save_state,
    Tool.load_state, Tool.on_game, Tool.get_game; by rewrite Hinit.
Qed.

Lemma run_ops_reachable (os : list op) : forall self,
  reachable self -> reachable (run_ops os self).
Proof.
  induction os as [|o os IH]; intros self Hreach; [done|].
  cbn [run_ops]. apply IH.
  destruct (run_op o self) as [r s1] eqn:Hrun. by eapply reachable_op.
Qed.

(** X15: the first tool call builds the session and every later call works
    on the session object the call before left, whether that call returned
    or raised: after the calls [os] the module holds the session that the
    operations [os] produce from the fresh one, a session reached from a
    fresh one. *)
Theorem tools_share_one_session (os : list op) (self0 : GameState _) :
  init INITIAL_GAME = Return self0 ->
  os <> [] ->
  Tool.calls INITIAL_GAME os None = Some (run_ops os self0)
  /\ reachable (run_ops os self0).
Proof.
  intros Hinit Hos. split.
  - destruct os as [|o os]; [done|]. cbn [Tool.calls run_ops].
    by rewrite (call_builds_session o self0 Hinit), call_on_session,
      calls_on_session.
  - apply run_ops_reachable. by eapply reachable_init.
Qed.

(** X16: when the session cannot be built, every tool call raises the
    exception of the construction, also the calls whose methods turn engine
    failures into text, and the module is left without a session, so the
    next call tries to build it again. *)
Theorem tool_call_without_session (e : exn) (o : op) (os : list op) :
  init INITIAL_GAME = Raise e ->
  Tool.call INITIAL_GAME o None = (Raise e, None)
  /\ Tool.calls INITIAL_GAME os None = None.
Proof.
  intros Hinit.
  assert (Hcall : forall o', Tool.call INITIAL_GAME o' None = (Raise e, None)).
  { intros o'. destruct o'; unfold Tool.call, Tool.play_action, Tool.memory,
      Tool.get_map, Tool.inventory, Tool.valid_actions, Tool.check_vocabulary,
      Tool.save_state, Tool.load_state, Tool.on_game, Tool.get_game;
      by rewrite Hinit. }
  split; [apply Hcall|].
  induction os as [|o' os IH]; [done|].
  cbn [Tool.calls]. by rewrite Hcall.
Qed.

End ToolLaws.

(** ** The further properties on the small engines *)

Section MoreRuns.
Import Toy.

Example score_info_examples :
  Tool.score_info {| observation := "Taken."; score := 15; moves := 7; reward := 5;
                     done := false; inventory := [] |}
  = PyStr.nl +:+ PyStr.nl +:+ "+5 points! (Total: 15)"
  /\ Tool.score_info {| observation := "Taken."; score := 15; moves := 7; reward := 0;
                        done := false; inventory := [] |}
     = PyStr.nl +:+ PyStr.nl +:+ "[Score: 15 | Moves: 7]"
  /\ Tool.done_info {| observation := "You have died."; score := 0; moves := 9;
                       reward := (-10); done := true; inventory := [] |}
     = PyStr.nl +:+ PyStr.nl +:+ "GAME OVER".
Proof. repeat split; reflexivity. Qed.

Example play_action_on_toy :
  (Tool.play_action_on (H := quiet) "north" start).1
  = Return ("Hall" +:+ PyStr.nl +:+ "A long hall. The kitchen is south."
            +:+ PyStr.nl +:+ PyStr.nl +:+ "[Score: 10 | Moves: 1]").
Proof. vm_compute. reflexivity. Qed.

Lemma only_take_action_raises_exception_witness :
  run_op (H := brittle) (TakeAction "look") saved
  = (Raise crash, set_env (H := brittle) kitchen saved)
  /\ is_Exception crash = true
  /\ exists action e',
       TakeAction "look" = TakeAction action
       /\ step (Engine := brittle) (env saved) action = (Raise crash, e').
Proof.
  assert (Hrun : run_op (H := brittle) (TakeAction "look") saved
                 = (Raise crash, set_env (H := brittle) kitchen saved))
    by (vm_compute; reflexivity).
  split; [exact Hrun|]. split; [reflexivity|].
  exact (only_take_action_raises_exception (H := brittle) (TakeAction "look")
           saved (set_env (H := brittle) kitchen saved) crash Hrun eq_refl).
Defined.

Lemma engine_failure_reports_witness :
  let self := Flaky.unplugged in
  env_get_valid_actions (Engine := Flaky.engine) (env self)
  = (Raise Flaky.down_error, true)
  /\ saved_states self !! "a" = Some false
  /\ get_valid_actions (H := Flaky.engine) self
     = (Return "Could not retrieve valid actions: engine down", self)
  /\ check_vocabulary (H := Flaky.engine) "lamp" self
     = (Return "Could not check vocabulary: engine down", self)
  /\ save_game (H := Flaky.engine) "b" self
     = (Return "Error saving game to slot 'b': engine down", self)
  /\ load_game (H := Flaky.engine) "a" self
     = (Return "Error loading game from slot 'a': engine down", self).
Proof.
  intros self.
  assert (Hdown : forall A (r : A) after,
             Flaky.guard (env self) r after = (Raise Flaky.down_error, true))
    by (intros; reflexivity).
  assert (Hslot : saved_states self !! "a" = Some false)
    by (vm_compute; reflexivity).
  destruct (engine_failure_reports (H := Flaky.engine) self Flaky.down_error true
              eq_refl) as (Hvalid & Hvocab & Hsave & Hload).
  split; [apply Hdown|]. split; [exact Hslot|].
  split; [exact (Hvalid (Hdown _ _ _))|].
  split; [exact (Hvocab (Hdown _ _ _) "lamp")|].
  split; [exact (Hsave (Hdown _ _ _) "b")|].
  exact (Hload "a" false Hslot (Hdown _ _ _)).
Defined.

Lemma take_action_records_step_witness :
  take_action (H := quiet) "north" start = (Return (room_text 1), in_hall)
  /\ last (history in_hall) = Some ("north", room_text 1)
  /\ current_location in_hall = "Hall".
Proof.
  assert (Hrun : take_action (H := quiet) "north" start
                 = (Return (room_text 1), in_hall))
    by (vm_compute; reflexivity).
  destruct (take_action_records_step (H := quiet) "north" (room_text 1)
              start in_hall Hrun) as (Hlast & _ & Hloc & _).
  split; [exact Hrun|]. split; [exact Hlast|].
  rewrite Hloc. vm_compute. reflexivity.
Defined.

Lemma sixty_steps_reachable :
  reachable (run_ops (H := quiet) (TakeAction <$> sixty_actions) start).
Proof. apply run_ops_reachable. by apply (reachable_init "toy"). Qed.

Lemma reachable_history_bounded_witness :
  let self := run_ops (H := quiet) (TakeAction <$> sixty_actions) start in
  reachable self /\ length (history self) = 50 /\ length (history self) <= 50.
Proof.
  intros self. split; [exact sixty_steps_reachable|].
  split; [vm_compute; reflexivity|].
  exact (reachable_history_bounded (H := quiet) self sixty_steps_reachable).
Defined.

Lemma in_hall_edge : has_edge in_hall "Kitchen" "north -> Hall".
Proof.
  exists {["north -> Hall"]}. split; [vm_compute; reflexivity|].
  by apply elem_of_singleton.
Qed.

Lemma reachable_edges_well_formed_witness :
  reachable in_hall
  /\ has_edge in_hall "Kitchen" "north -> Hall"
  /\ exists action destination,
       action ∈ movement_actions /\ destination <> "Kitchen"
       /\ "north -> Hall" = action +:+ " -> " +:+ destination.
Proof.
  split; [exact in_hall_reachable|]. split; [exact in_hall_edge|].
  exact (reachable_edges_well_formed (H := quiet) in_hall "Kitchen"
           "north -> Hall" in_hall_reachable in_hall_edge).
Defined.

Lemma checkpoint_survives_play_witness :
  let os := [TakeAction "north"; GetMap; SaveGame "b"; TakeAction "look"] in
  let later := run_ops (H := quiet) os (save_game (H := quiet) "a" start).2 in
  get_state (Engine := quiet) (env start) = (Return (env start), env start)
  /\ (SaveGame "a" ∉ os)
  /\ current_location later = "Hall"
  /\ saved_states later !! "a" = Some (env start)
  /\ current_location (load_game (H := quiet) "a" later).2 = "Kitchen"
  /\ history (load_game (H := quiet) "a" later).2 = history later.
Proof.
  intros os later.
  assert (Hget : get_state (Engine := quiet) (env start)
                 = (Return (env start), env start)) by reflexivity.
  assert (Hnot : SaveGame "a" ∉ os).
  { intros Hin. repeat (apply elem_of_cons in Hin as [Heq|Hin]; [discriminate Heq|]).
    by apply elem_of_nil in Hin. }
  destruct (checkpoint_survives_play (H := quiet) "a" (env start) (env start)
              os start Hget Hnot) as [Hslot Hload].
  destruct (Hload (env start) (describe (env start)) (env start))
    as (restored & Hrun & _ & _ & Hloc & Hh & _);
    [vm_compute; reflexivity..|].
  split; [exact Hget|]. split; [exact Hnot|].
  split; [vm_compute; reflexivity|]. split; [exact Hslot|].
  fold later in Hrun, Hh. rewrite Hrun. cbn [snd].
  split; [rewrite Hloc; vm_compute; reflexivity|exact Hh].
Defined.

Lemma check_vocabulary_six_chars_witness :
  let self := fresh words3 false in
  PyStr.take 6 (PyStr.lower "XYZZYQ!") = PyStr.take 6 (PyStr.lower "xyzzyqq")
  /\ (check_vocabulary (H := engine words3 false) "XYZZYQ!" self).1
     = Return (vocabulary_report "XYZZYQ!" ["xyzzyq"])
  /\ (check_vocabulary (H := engine words3 false) "xyzzyqq" self).1
     = Return (vocabulary_report "xyzzyqq" ["xyzzyq"]).
Proof.
  intros self.
  assert (Hsame : PyStr.take 6 (PyStr.lower "XYZZYQ!")
                  = PyStr.take 6 (PyStr.lower "xyzzyqq")) by reflexivity.
  destruct (check_vocabulary_six_chars (H := engine words3 false) self words3
              (env self) "XYZZYQ!" "xyzzyqq" eq_refl Hsame)
    as (matches & Hone & Htwo & Hmatches & _).
  assert (Hlist : matches = ["xyzzyq"]) by (rewrite Hmatches; vm_compute; reflexivity).
  split; [exact Hsame|]. rewrite Hone, Htwo, Hlist. by split.
Defined.

Lemma check_vocabulary_empty_word_witness :
  get_dictionary (Engine := engine words3 false) (env (fresh words3 false))
  = (Return words3, env (fresh words3 false))
  /\ (check_vocabulary (H := engine words3 false) "" (fresh words3 false)).1
     = Return "Yes, the game understands '' (matches: xyzzy, xyzzyq, plugh).".
Proof.
  assert (Hdict : get_dictionary (Engine := engine words3 false)
                    (env (fresh words3 false))
                  = (Return words3, env (fresh words3 false))) by reflexivity.
  split; [exact Hdict|].
  rewrite (check_vocabulary_empty_word (H := engine words3 false)
             (fresh words3 false) words3 (env (fresh words3 false)) Hdict).
  vm_compute. reflexivity.
Defined.

Lemma fresh_session_is_blank_witness :
  init (H := quiet) "toy" = Return start
  /\ get_map start = (Return no_locations_message, start)
  /\ load_game (H := quiet) "a" start = (Return (slot_not_found "a"), start).
Proof.
  assert (Hinit : init (H := quiet) "toy" = Return start)
    by (vm_compute; reflexivity).
  destruct (fresh_session_is_blank (H := quiet) "toy" start Hinit)
    as (_ & _ & _ & Hmap & Hload).
  split; [exact Hinit|]. split; [exact Hmap|exact (Hload "a")].
Defined.

Lemma get_map_lists_everything_witness :
  explored_locations in_hall <> ∅
  /\ get_map in_hall = (Return (PyStr.join PyStr.nl (map_lines in_hall)), in_hall)
  /\ (PyStr.nl +:+ "* Kitchen") ∈ map_lines in_hall
  /\ "    -> north -> Hall" ∈ map_lines in_hall.
Proof.
  assert (Hne : explored_locations in_hall <> ∅).
  { intros Hempty. destruct in_hall_edge as (exits & Hl & _).
    by rewrite Hempty, lookup_empty in Hl. }
  destruct (get_map_lists_everything (H := quiet) in_hall Hne)
    as (Hmap & _ & _ & _ & _ & Hall).
  destruct (Hall "Kitchen" {["north -> Hall"]}) as (Hloc & _ & _ & Hexits);
    [vm_compute; reflexivity|].
  split; [exact Hne|]. split; [exact Hmap|]. split; [exact Hloc|].
  apply (Hexits "north -> Hall"). by apply elem_of_singleton.
Defined.

Lemma tools_share_one_session_witness :
  let os := [TakeAction "north"; SaveGame "a"; GetMemory] in
  init (H := quiet) "toy" = Return start
  /\ Tool.calls (H := quiet) "toy" os None = Some (run_ops (H := quiet) os start)
  /\ current_location (run_ops (H := quiet) os start) = "Hall".
Proof.
  intros os.
  assert (Hinit : init (H := quiet) "toy" = Return start)
    by (vm_compute; reflexivity).
  destruct (tools_share_one_session (H := quiet) "toy" os start Hinit)
    as [Hcalls _]; [done|].
  split; [exact Hinit|]. split; [exact Hcalls|]. vm_compute. reflexivity.
Defined.

Lemma tool_call_without_session_witness :
  init (H := Flaky.engine) "no such game" = Raise (PyExc true "unknown game")
  /\ Tool.call (H := Flaky.engine) "no such game" GetValidActions None
     = (Raise (PyExc true "unknown game"), None)
  /\ Tool.calls (H := Flaky.engine) "no such game" [GetMap; TakeAction "look"] None
     = None.
Proof.
  assert (Hinit : init (H := Flaky.engine) "no such game"
                  = Raise (PyExc true "unknown game")) by reflexivity.
  split; [exact Hinit|].
  exact (tool_call_without_session (H := Flaky.engine) "no such game"
           (PyExc true "unknown game") GetValidActions
           [GetMap; TakeAction "look"] Hinit).
Defined.

End MoreRuns.

(** ** A movement attempt and the map *)

Section MovementAttempt.
Context `{Engine}.



Lemma sorted_exits_empty : sorted_exits ∅ = [].
Proof. unfold sorted_exits. by rewrite elements_empty. Qed.


End MovementAttempt.

Section MovementAttemptRuns.
Import Toy.



End MovementAttemptRuns.
